(** * opendlv-video-hsv-inspector: a shallow embedding of [main]

    The program attaches to a shared memory area that holds a four-channel
    8-bit image, converts every frame to HSV, lets the user shift the three
    HSV channels with trackbars, thresholds the shifted frame with
    [cv::inRange] and shows the mask and the masked, shifted frame.

    The development follows [src/opendlv-video-hsv-inspector.cpp] from the
    inside out: element arithmetic of the matrix expressions, the three bias
    lines, the mask and the masked copy, the per-frame transform, and at the
    end [main] with its side effects written in a small state monad. *)

From Stdlib Require Import Ascii.
From stdpp Require Import gmap strings list.

Open Scope Z_scope.

(** ** Element types of the matrices *)

Module Sat.

(** Limits of [short] (CV_16S) and [uchar] (CV_8U). *)
Definition SHRT_MIN : Z := -32768.
Definition SHRT_MAX : Z := 32767.
Definition UCHAR_MAX : Z := 255.

Definition fits_16S (x : Z) : Prop := SHRT_MIN <= x <= SHRT_MAX.
Definition fits_8U (x : Z) : Prop := 0 <= x <= UCHAR_MAX.

(** [cv::saturate_cast<short>]: values outside the type are pinned to the
    nearest limit. *)
Definition saturate_16S (x : Z) : Z :=
  if x <? SHRT_MIN then SHRT_MIN
  else if SHRT_MAX <? x then SHRT_MAX
  else x.

(** [cv::saturate_cast<uchar>]. *)
Definition saturate_8U (x : Z) : Z :=
  if (0 <=? x) && (x <=? UCHAR_MAX) then x
  else if 0 <? x then UCHAR_MAX else 0.

End Sat.

(** ** The bias lines (source lines 120 to 130)

    [hsvChannels[i]] is converted to CV_16S, rewritten by
    [cv::min(cv::max(hsvChannels[i] - sub, 0) + add, top)], and converted
    back to CV_8U.  Every operator of the matrix expression produces a
    CV_16S matrix, so each one stores its exact result through
    [saturate_cast<short>]; the scalar operand of [cv::max] and [cv::min] is
    converted to the element type the same way. *)

Module Bias.
Import Sat.

Inductive channel : Set := Hue | Saturation | Value.

(** Upper bound passed to [cvCreateTrackbar] and to [cv::min] per channel. *)
Definition domain_max (c : channel) : Z :=
  match c with Hue => 179 | Saturation | Value => 255 end.

Definition in_domain (c : channel) (x : Z) : Prop := 0 <= x <= domain_max c.

(** Element-wise operators on CV_16S data. *)
Definition sub_16S (a s : Z) : Z := saturate_16S (a - s).
Definition add_16S (a s : Z) : Z := saturate_16S (a + s).
Definition max_16S (a s : Z) : Z := Z.max a (saturate_16S s).
Definition min_16S (a s : Z) : Z := Z.min a (saturate_16S s).

(** A single-channel matrix is the row-major list of its elements. *)
Abbreviation plane := (list Z).

Definition convertTo_16S (m : plane) : plane := saturate_16S <$> m.
Definition convertTo_8U (m : plane) : plane := saturate_8U <$> m.
Definition mat_sub (m : plane) (s : Z) : plane := (fun a => sub_16S a s) <$> m.
Definition mat_add (m : plane) (s : Z) : plane := (fun a => add_16S a s) <$> m.
Definition mat_max (m : plane) (s : Z) : plane := (fun a => max_16S a s) <$> m.
Definition mat_min (m : plane) (s : Z) : plane := (fun a => min_16S a s) <$> m.

(** Right-hand side of lines 124 to 126 for one channel. *)
Definition bias_expr (c : channel) (m : plane) (sub add : Z) : plane :=
  mat_min (mat_add (mat_max (mat_sub m sub) 0) add) (domain_max c).

(** Lines 121, 124..126 and 129 for one channel. *)
Definition bias_plane (c : channel) (m : plane) (sub add : Z) : plane :=
  convertTo_8U (bias_expr c (convertTo_16S m) sub add).

(** What the lines above do to one element. *)
Definition bias_16S (c : channel) (v sub add : Z) : Z :=
  min_16S (add_16S (max_16S (sub_16S (saturate_16S v) sub) 0) add) (domain_max c).

Definition bias_value (c : channel) (v sub add : Z) : Z :=
  saturate_8U (bias_16S c v sub add).

(** The single saturating clip of the specification, for comparison. *)
Definition clip (c : channel) (x : Z) : Z := Z.max 0 (Z.min (domain_max c) x).

End Bias.


(** ** Images

    A [cv::Mat] with several 8-bit channels is the row-major list of its
    pixels; the image dimensions only fix the length of that list. *)

Module Image.
Import Sat Bias.

(** Pixel of the four-channel image behind the shared memory
    ([IPL_DEPTH_8U], 4 channels), bytes in memory order. *)
Record Vec4b : Set := mkVec4b { byte0 : Z; byte1 : Z; byte2 : Z; byte3 : Z }.

(** Pixel of a three-channel image. *)
Record Vec3b : Set := mkVec3b { c0 : Z; c1 : Z; c2 : Z }.

(** The three values of a [cv::Scalar] that a three-channel image uses. *)
Record Scalar : Set := mkScalar { s0 : Z; s1 : Z; s2 : Z }.

Definition zero3 : Vec3b := mkVec3b 0 0 0.

(** The trackbar variables of [main], lines 66 to 93. *)
Record Controls : Set := mkControls {
  minH : Z; maxH : Z; minS : Z; maxS : Z; minV : Z; maxV : Z;
  hAdd : Z; sAdd : Z; vAdd : Z;
  hSub : Z; sSub : Z; vSub : Z }.

(** Their values when the windows open. *)
Definition initial_controls : Controls :=
  mkControls 0 179 0 255 0 255 0 0 0 0 0 0.

(** What [cvCreateTrackbar] lets the user reach. *)
Definition controls_in_domain (k : Controls) : Prop :=
  in_domain Hue (minH k) /\ in_domain Hue (maxH k) /\
  in_domain Saturation (minS k) /\ in_domain Saturation (maxS k) /\
  in_domain Value (minV k) /\ in_domain Value (maxV k) /\
  in_domain Hue (hAdd k) /\ in_domain Saturation (sAdd k) /\ in_domain Value (vAdd k) /\
  in_domain Hue (hSub k) /\ in_domain Saturation (sSub k) /\ in_domain Value (vSub k).

(** [cv::split] and [cv::merge] on three channels. *)
Definition split (img : list Vec3b) : plane * plane * plane :=
  (c0 <$> img, c1 <$> img, c2 <$> img).

Fixpoint merge (h s v : plane) : list Vec3b :=
  match h, s, v with
  | x :: h', y :: s', z :: v' => mkVec3b x y z :: merge h' s' v'
  | _, _, _ => []
  end.

(** Lines 117 to 132: split, widen, bias, narrow, merge. *)
Definition adjust (k : Controls) (imgHSV : list Vec3b) : list Vec3b :=
  let '(ch0, ch1, ch2) := split imgHSV in
  let ch0 := bias_plane Hue ch0 (hSub k) (hAdd k) in
  let ch1 := bias_plane Saturation ch1 (sSub k) (sAdd k) in
  let ch2 := bias_plane Value ch2 (vSub k) (vAdd k) in
  merge ch0 ch1 ch2.

(** The same, pixel by pixel. *)
Definition adjust_px (k : Controls) (p : Vec3b) : Vec3b :=
  mkVec3b (bias_value Hue (c0 p) (hSub k) (hAdd k))
          (bias_value Saturation (c1 p) (sSub k) (sAdd k))
          (bias_value Value (c2 p) (vSub k) (vAdd k)).

(** [cv::inRange] with scalar bounds: 255 where every channel lies between
    its two bounds, both included, 0 elsewhere. *)
Definition inRange_px (lowerb upperb : Scalar) (p : Vec3b) : Z :=
  if (s0 lowerb <=? c0 p) && (c0 p <=? s0 upperb) &&
     (s1 lowerb <=? c1 p) && (c1 p <=? s1 upperb) &&
     (s2 lowerb <=? c2 p) && (c2 p <=? s2 upperb)
  then 255 else 0.

Definition inRange (src : list Vec3b) (lowerb upperb : Scalar) : plane :=
  inRange_px lowerb upperb <$> src.

(** [src.copyTo(dst, mask)]: the elements of [src] whose mask element is
    not zero overwrite those of [dst]. *)
Fixpoint copyTo_masked (src dst : list Vec3b) (mask : plane) : list Vec3b :=
  match src, dst, mask with
  | p :: src', d :: dst', m :: mask' =>
      (if m =? 0 then d else p) :: copyTo_masked src' dst' mask'
  | _, _, _ => []
  end.

(** Line 143 and 144: [filtered] is a new, empty matrix in every iteration,
    so [copyTo] allocates it filled with zeros before it copies. *)
Definition copyTo (src : list Vec3b) (mask : plane) : list Vec3b :=
  copyTo_masked src (replicate (length src) zero3) mask.

(** A pixel whose three channels are values of the inspection space. *)
Definition hsv_px_in_domain (p : Vec3b) : Prop :=
  in_domain Hue (c0 p) /\ in_domain Saturation (c1 p) /\ in_domain Value (c2 p).

(** The three bound checks of [cv::inRange] on one pixel. *)
Definition within_bounds (lowerb upperb : Scalar) (p : Vec3b) : Prop :=
  s0 lowerb <= c0 p <= s0 upperb /\
  s1 lowerb <= c1 p <= s1 upperb /\
  s2 lowerb <= c2 p <= s2 upperb.

(** Trackbars as they open, except that "Val (max)" was pulled down to 100. *)
Definition dark_only : Controls := mkControls 0 179 0 255 0 100 0 0 0 0 0 0.

End Image.


(** ** Colour conversion and the per-frame transform (lines 114 to 144)

    [cv::cvtColor] belongs to the imaging library, not to this program.  What
    the program fixes is the conversion code: [cv::COLOR_BGR2HSV] on the
    four-channel image reads, for every pixel, byte 0 as blue, byte 1 as
    green and byte 2 as red, and skips byte 3; [cv::COLOR_HSV2BGR] maps each
    three-channel pixel on its own.  The two pixel kernels are parameters of
    the transform. *)

Module Transform.
Import Sat Bias Image.

(** The two images handed to [cv::imshow]. *)
Record Views := mkViews {
  shown_mask : plane;            (* "Mask only" *)
  shown_filtered : list Vec3b    (* "Adjusted and masked" *)
}.

Section Kernels.

Variable hsv_of_bgr : Z -> Z -> Z -> Vec3b.
Variable bgr_of_hsv : Vec3b -> Vec3b.

Definition cvtColor_BGR2HSV (img : list Vec4b) : list Vec3b :=
  (fun p => hsv_of_bgr (byte0 p) (byte1 p) (byte2 p)) <$> img.

Definition cvtColor_HSV2BGR (img : list Vec3b) : list Vec3b :=
  bgr_of_hsv <$> img.

(** The adjusted HSV image of line 132. *)
Definition adjusted_hsv (k : Controls) (img : list Vec4b) : list Vec3b :=
  adjust k (cvtColor_BGR2HSV img).

(** The mask of line 136. *)
Definition frame_mask (k : Controls) (img : list Vec4b) : plane :=
  inRange (adjusted_hsv k img)
          (mkScalar (minH k) (minS k) (minV k))
          (mkScalar (maxH k) (maxS k) (maxV k)).

(** Everything between the unlock and the two [imshow] calls. *)
Definition process (k : Controls) (img : list Vec4b) : Views :=
  let imgHSV := adjusted_hsv k img in
  let mask := inRange imgHSV (mkScalar (minH k) (minS k) (minV k))
                             (mkScalar (maxH k) (maxS k) (maxV k)) in
  let adjustedBGR := cvtColor_HSV2BGR imgHSV in
  let filtered := copyTo adjustedBGR mask in
  mkViews mask filtered.

End Kernels.

(** Two frames that agree everywhere except, possibly, in byte [n] of some
    pixels. *)
Definition same_but_byte (n : nat) (p q : Vec4b) : Prop :=
  (n <> 0%nat -> byte0 p = byte0 q) /\ (n <> 1%nat -> byte1 p = byte1 q) /\
  (n <> 2%nat -> byte2 p = byte2 q) /\ (n <> 3%nat -> byte3 p = byte3 q).

Definition frames_differ_only_in_byte (n : nat) (f1 f2 : list Vec4b) : Prop :=
  Forall2 (same_but_byte n) f1 f2.

End Transform.

(** ** The 8-bit BGR to HSV kernel of the imaging library

    Used for the worked examples only.  It is the fixed-point kernel of
    OpenCV for 8-bit images with hue range 180: two division tables scaled
    by 2^12, a rounding shift, and a wrap of negative hues. *)

Module Kernel8U.
Import Sat Image.

Definition hsv_shift : Z := 12.

(** [cvRound(p / q)] for positive [q]: nearest integer, ties to even. *)
Definition round_div (p q : Z) : Z :=
  let fl := p / q in
  let twice := 2 * (p mod q) in
  if twice <? q then fl
  else if q <? twice then fl + 1
  else if Z.even fl then fl else fl + 1.

Definition sdiv_table (i : Z) : Z :=
  if i =? 0 then 0 else round_div (Z.shiftl 255 hsv_shift) i.

Definition hdiv_table180 (i : Z) : Z :=
  if i =? 0 then 0 else round_div (Z.shiftl 180 hsv_shift) (6 * i).

Definition BGR2HSV_8U (b g r : Z) : Vec3b :=
  let v := Z.max (Z.max b g) r in
  let vmin := Z.min (Z.min b g) r in
  let diff := v - vmin in
  let s := Z.shiftr (diff * sdiv_table v + Z.shiftl 1 (hsv_shift - 1)) hsv_shift in
  let h :=
    if v =? r then g - b
    else if v =? g then b - r + 2 * diff
    else r - g + 4 * diff in
  let h := Z.shiftr (h * hdiv_table180 diff + Z.shiftl 1 (hsv_shift - 1)) hsv_shift in
  let h := if h <? 0 then h + 180 else h in
  mkVec3b (saturate_8U h) s v.

End Kernel8U.


(** ** [main] and its side effects

    [main] talks to the outside through the shared memory, the GUI and the
    two diagnostic streams.  Every such call is recorded as an [event],
    together with whether this process held the shared-memory lock when the
    call was made; the lock flag is maintained by [lock] and [unlock]
    themselves.  [cvCreateImageHeader] raises on a negative size; the other
    OpenCV and GUI calls are taken to succeed. *)

Module Main.
Import Sat Bias Image Transform.

Inductive depth : Set := CV_8U | CV_16S.
Inductive conversion : Set := COLOR_BGR2HSV | COLOR_HSV2BGR.

Inductive shown : Type :=
| Gray (m : plane)
| Colour (m : list Vec3b).

Inductive event : Type :=
| Cerr (line : string)
| ClogAttached (name : string) (size : Z)
| Attach (name : string)
| CreateImageHeader (width height : Z)
| Lock
| Unlock
| BindImageData
| NamedWindow (title : string)
| CreateTrackbar (label : string) (count : Z)
| WaitKey (delay : Z)
| CvarrToMat
| CvtColor (code : conversion)
| Split
| ConvertTo (c : channel) (d : depth)
| BiasExpr (c : channel)
| Merge
| InRange
| CopyTo
| Imshow (title : string) (img : shown)
| ReleaseImageHeader.

(** How a run of [main] ends. *)
Inductive outcome : Set :=
| Exited (retCode : Z)      (* [return retCode] *)
| Terminated                (* an exception left [main] *)
| Interrupted.              (* Ctrl-C while the loop was running *)

Record State := mkState {
  held : bool;                       (* this process holds the lock *)
  trace : list (event * bool)        (* calls so far, oldest first *)
}.

Definition initial_state : State := mkState false [].

Definition M (A : Type) : Type := State -> A * State.

#[local] Instance M_ret : MRet M := fun A a s => (a, s).
#[local] Instance M_bind : MBind M := fun A B f m s => let '(a, s') := m s in f a s'.

Definition emit (e : event) : M unit :=
  fun s => (tt, mkState (held s) (trace s ++ [(e, held s)])).

Definition lock : M unit :=
  fun s => (tt, mkState true (trace s ++ [(Lock, held s)])).

Definition unlock : M unit :=
  fun s => (tt, mkState false (trace s ++ [(Unlock, held s)])).

(** A library call that computes [v]. *)
Definition call {A} (e : event) (v : A) : M A := emit e ;; mret v.

(** What one pass of the loop finds outside the program: the key code
    returned by [cv::waitKey], the trackbar positions after the GUI events
    were handled, and the bytes of the shared memory as the conversion reads
    them. *)
Record Tick := mkTick { key : Z; controls : Controls; pixels : list Vec4b }.

Record Env := mkEnv {
  attach : string -> option Z;   (* size of the segment when it can be attached *)
  ticks : list Tick
}.

(** *** [std::stoi] *)

Definition isspace (c : ascii) : bool :=
  let n := nat_of_ascii c in
  (n =? 32)%nat || ((9 <=? n)%nat && (n <=? 13)%nat).

Definition digit_of (c : ascii) : option Z :=
  let n := Z.of_nat (nat_of_ascii c) in
  if (48 <=? n) && (n <=? 57) then Some (n - 48) else None.

Fixpoint skip_spaces (s : string) : string :=
  match s with
  | String c s' => if isspace c then skip_spaces s' else s
  | EmptyString => s
  end.

(** Longest prefix of digits, as a number; [None] when it is empty. *)
Fixpoint read_digits (s : string) (acc : option Z) : option Z :=
  match s with
  | String c s' =>
      match digit_of c with
      | Some d => read_digits s' (Some (10 * default 0 acc + d))
      | None => acc
      end
  | EmptyString => acc
  end.

Definition INT_MIN : Z := -2147483648.
Definition INT_MAX : Z := 2147483647.

(** [None] stands for [std::invalid_argument] and [std::out_of_range]. *)
Definition stoi (s : string) : option Z :=
  let s := skip_spaces s in
  let '(negative, s) :=
    match s with
    | String "-"%char s' => (true, s')
    | String "+"%char s' => (false, s')
    | _ => (false, s)
    end in
  n ← read_digits s None;
  let v := if negative : bool then - n else n in
  if (INT_MIN <=? v) && (v <=? INT_MAX) then Some v else None.

(** [static_cast<uint32_t>] of an [int]. *)
Definition to_uint32 (x : Z) : Z := x mod 2 ^ 32.

(** The assignment of a [uint32_t] to the [int] fields of [CvSize], lines
    54 and 55: the value is narrowed back to 32 signed bits. *)
Definition to_int32 (x : Z) : Z := (x + 2 ^ 31) mod 2 ^ 32 - 2 ^ 31.

(** [std::map::count] and [operator[]] on the parsed command line. *)
Definition count (args : gmap string string) (k : string) : Z :=
  match args !! k with Some _ => 1 | None => 0 end.

Definition at_key (args : gmap string string) (k : string) : string :=
  default "" (args !! k).

(** Lines 34 to 39. *)
Definition usage (argv0 : string) : list string :=
  [ argv0 +:+ " attaches to a shared memory area containing an ARGB image and transform it to HSV color space for inspection.";
    "Usage:   " +:+ argv0 +:+ " --name=<name of shared memory area> --width=<W> --height=<H>";
    "         --name:   name of the shared memory area to attach";
    "         --width:  width of the frame";
    "         --height: height of the frame";
    "Example: " +:+ argv0 +:+ " --name=img.argb --width=640 --height=480" ].

Fixpoint emit_all (es : list event) : M unit :=
  match es with
  | [] => mret tt
  | e :: es' => emit e ;; emit_all es'
  end.

(** Lines 65 to 93. *)
Definition create_controls : M unit :=
  emit (NamedWindow "Inspector") ;;
  emit (CreateTrackbar "Hue (min)" 179) ;;
  emit (CreateTrackbar "Hue (max)" 179) ;;
  emit (CreateTrackbar "Sat (min)" 255) ;;
  emit (CreateTrackbar "Sat (max)" 255) ;;
  emit (CreateTrackbar "Val (min)" 255) ;;
  emit (CreateTrackbar "Val (max)" 255) ;;
  emit (CreateTrackbar "Hadd" 179) ;;
  emit (CreateTrackbar "Sadd" 255) ;;
  emit (CreateTrackbar "Vadd" 255) ;;
  emit (CreateTrackbar "Hsub" 179) ;;
  emit (CreateTrackbar "Ssub" 255) ;;
  emit (CreateTrackbar "Vsub" 255).

Section Kernels.

Variable hsv_of_bgr : Z -> Z -> Z -> Vec3b.
Variable bgr_of_hsv : Vec3b -> Vec3b.

(** Body of the loop, lines 97 to 147.  [cv::cvarrToMat] makes [img] a
    header over the shared bytes; it copies no pixel. *)
Definition iteration (t : Tick) : M unit :=
  let k := controls t in
  lock ;;
  img ← call CvarrToMat (pixels t) ;
  unlock ;;
  imgHSV ← call (CvtColor COLOR_BGR2HSV) (cvtColor_BGR2HSV hsv_of_bgr img) ;
  hsvChannels ← call Split (split imgHSV) ;
  let '(ch0, ch1, ch2) := hsvChannels in
  ch0 ← call (ConvertTo Hue CV_16S) (convertTo_16S ch0) ;
  ch1 ← call (ConvertTo Saturation CV_16S) (convertTo_16S ch1) ;
  ch2 ← call (ConvertTo Value CV_16S) (convertTo_16S ch2) ;
  ch0 ← call (BiasExpr Hue) (bias_expr Hue ch0 (hSub k) (hAdd k)) ;
  ch1 ← call (BiasExpr Saturation) (bias_expr Saturation ch1 (sSub k) (sAdd k)) ;
  ch2 ← call (BiasExpr Value) (bias_expr Value ch2 (vSub k) (vAdd k)) ;
  ch0 ← call (ConvertTo Hue CV_8U) (convertTo_8U ch0) ;
  ch1 ← call (ConvertTo Saturation CV_8U) (convertTo_8U ch1) ;
  ch2 ← call (ConvertTo Value CV_8U) (convertTo_8U ch2) ;
  imgHSV ← call Merge (merge ch0 ch1 ch2) ;
  mask ← call InRange (inRange imgHSV (mkScalar (minH k) (minS k) (minV k))
                                      (mkScalar (maxH k) (maxS k) (maxV k))) ;
  adjustedBGR ← call (CvtColor COLOR_HSV2BGR) (cvtColor_HSV2BGR bgr_of_hsv imgHSV) ;
  filtered ← call CopyTo (copyTo adjustedBGR mask) ;
  emit (Imshow "Mask only" (Gray mask)) ;;
  emit (Imshow "Adjusted and masked" (Colour filtered)).

(** [while (cv::waitKey(10)) { ... }]: [true] when the loop was left because
    [waitKey] returned 0, [false] when the process was interrupted first. *)
Fixpoint loop (ts : list Tick) : M bool :=
  match ts with
  | [] => mret false
  | t :: ts' =>
      emit (WaitKey 10) ;;
      if key t =? 0 then mret true
      else iteration t ;; loop ts'
  end.

Definition main (argv0 : string) (commandlineArguments : gmap string string)
    (env : Env) : M outcome :=
  let retCode := 1 in
  if (0 =? count commandlineArguments "name") ||
     (0 =? count commandlineArguments "width") ||
     (0 =? count commandlineArguments "height")
  then
    emit_all (Cerr <$> usage argv0) ;;
    mret (Exited retCode)
  else
    let NAME := at_key commandlineArguments "name" in
    match stoi (at_key commandlineArguments "width") with
    | None => mret Terminated
    | Some w =>
    match stoi (at_key commandlineArguments "height") with
    | None => mret Terminated
    | Some h =>
        let WIDTH := to_uint32 w in
        let HEIGHT := to_uint32 h in
        emit (Attach NAME) ;;
        match attach env NAME with
        | Some size =>
            emit (ClogAttached NAME size) ;;
            let size_width := to_int32 WIDTH in
            let size_height := to_int32 HEIGHT in
            emit (CreateImageHeader size_width size_height) ;;
            if (size_width <? 0) || (size_height <? 0) then
              (* cvCreateImageHeader: "Bad input roi" *)
              mret Terminated
            else
            lock ;;
            emit BindImageData ;;
            unlock ;;
            create_controls ;;
            left ← loop (ticks env) ;
            if left : bool then
              emit ReleaseImageHeader ;;
              let retCode := 0 in
              mret (Exited retCode)
            else mret Interrupted
        | None =>
            let retCode := 0 in
            mret (Exited retCode)
        end
    end
    end.

Definition run_main (argv0 : string) (args : gmap string string) (env : Env)
    : outcome * list event :=
  let '(r, s) := main argv0 args env initial_state in (r, fst <$> trace s).

End Kernels.

(** *** Observations on traces *)

(** The program tried to attach to a shared memory area. *)
Definition attach_attempted (tr : list event) : bool :=
  existsb (fun e => match e with Attach _ => true | _ => false end) tr.

(** The loop condition was evaluated at least once. *)
Definition loop_entered (tr : list event) : bool :=
  existsb (fun e => match e with WaitKey _ => true | _ => false end) tr.

Definition is_lock_op (e : event) : bool :=
  match e with Lock | Unlock => true | _ => false end.

(** Colour conversion, biasing, masking and presentation. *)
Definition is_processing (e : event) : bool :=
  match e with
  | CvtColor _ | Split | ConvertTo _ _ | BiasExpr _ | Merge
  | InRange | CopyTo | Imshow _ _ => true
  | _ => false
  end.

(** The calls, other than those on the lock itself, that were made while
    the lock was held. *)
Definition under_lock (tr : list (event * bool)) : list event :=
  fst <$> filter (fun en => en.2 = true /\ is_lock_op en.1 = false) tr.

(** What one pass of the loop does once the lock is released. *)
Definition processing_events (hsv_of_bgr : Z -> Z -> Z -> Vec3b)
    (bgr_of_hsv : Vec3b -> Vec3b) (t : Tick) : list event :=
  let v := process hsv_of_bgr bgr_of_hsv (controls t) (pixels t) in
  [ CvtColor COLOR_BGR2HSV; Split;
    ConvertTo Hue CV_16S; ConvertTo Saturation CV_16S; ConvertTo Value CV_16S;
    BiasExpr Hue; BiasExpr Saturation; BiasExpr Value;
    ConvertTo Hue CV_8U; ConvertTo Saturation CV_8U; ConvertTo Value CV_8U;
    Merge; InRange; CvtColor COLOR_HSV2BGR; CopyTo;
    Imshow "Mask only" (Gray (shown_mask v));
    Imshow "Adjusted and masked" (Colour (shown_filtered v)) ].

(** The calls of one pass, each with the lock flag it ran under. *)
Definition iteration_entries (hsv_of_bgr : Z -> Z -> Z -> Vec3b)
    (bgr_of_hsv : Vec3b -> Vec3b) (t : Tick) (held_before : bool)
    : list (event * bool) :=
  (Lock, held_before) :: (CvarrToMat, true) :: (Unlock, true) ::
  ((fun e => (e, false)) <$> processing_events hsv_of_bgr bgr_of_hsv t).

(** A traced call is in order with respect to the lock: the lock is taken
    only when free and released only when held, the two accesses to the
    shared image data are made under the lock, and every other call is made
    with the lock free. *)
Definition entry_ok (en : event * bool) : bool :=
  match en.1 with
  | Lock => negb en.2
  | Unlock | BindImageData | CvarrToMat => en.2
  | _ => negb en.2
  end.

Definition lock_invariant (s : State) : Prop :=
  held s = false /\ Forall (fun en => entry_ok en = true) (trace s).

(** The calls before the loop when the attach succeeds, lines 47 to 93. *)
Definition setup_entries (NAME : string) (size WIDTH HEIGHT : Z)
    : list (event * bool) :=
  [ (Attach NAME, false); (ClogAttached NAME size, false);
    (CreateImageHeader WIDTH HEIGHT, false);
    (Lock, false); (BindImageData, true); (Unlock, true);
    (NamedWindow "Inspector", false);
    (CreateTrackbar "Hue (min)" 179, false); (CreateTrackbar "Hue (max)" 179, false);
    (CreateTrackbar "Sat (min)" 255, false); (CreateTrackbar "Sat (max)" 255, false);
    (CreateTrackbar "Val (min)" 255, false); (CreateTrackbar "Val (max)" 255, false);
    (CreateTrackbar "Hadd" 179, false); (CreateTrackbar "Sadd" 255, false);
    (CreateTrackbar "Vadd" 255, false);
    (CreateTrackbar "Hsub" 179, false); (CreateTrackbar "Ssub" 255, false);
    (CreateTrackbar "Vsub" 255, false) ].

(** The calls of one full turn of the loop: the condition, then the body. *)
Definition pass_entries (hsv_of_bgr : Z -> Z -> Z -> Vec3b)
    (bgr_of_hsv : Vec3b -> Vec3b) (t : Tick) : list (event * bool) :=
  (WaitKey 10, false) :: iteration_entries hsv_of_bgr bgr_of_hsv t false.

(** The images handed to [cv::imshow], in order. *)
Definition images_shown (tr : list event) : list shown :=
  omap (fun e => match e with Imshow _ img => Some img | _ => None end) tr.

(** The two images of one pass. *)
Definition pass_images (hsv_of_bgr : Z -> Z -> Z -> Vec3b)
    (bgr_of_hsv : Vec3b -> Vec3b) (t : Tick) : list shown :=
  let v := process hsv_of_bgr bgr_of_hsv (controls t) (pixels t) in
  [Gray (shown_mask v); Colour (shown_filtered v)].

(** A pixel whose three channels are 8-bit values. *)
Definition px_8U (p : Vec3b) : Prop :=
  fits_8U (c0 p) /\ fits_8U (c1 p) /\ fits_8U (c2 p).

End Main.


(** * Properties *)

Import Sat Bias Image Transform Kernel8U Main.

(** ** Basic facts about the operations *)

Lemma saturate_16S_fits x : fits_16S x -> saturate_16S x = x.
Proof. unfold fits_16S, saturate_16S, SHRT_MIN, SHRT_MAX. intros ?. repeat case_match; lia. Qed.

Lemma saturate_8U_fits x : fits_8U x -> saturate_8U x = x.
Proof.
  unfold fits_8U, saturate_8U, UCHAR_MAX. intros ?. repeat case_match; lia.
Qed.

Lemma saturate_16S_range x : fits_16S (saturate_16S x).
Proof. unfold fits_16S, saturate_16S, SHRT_MIN, SHRT_MAX. repeat case_match; lia. Qed.

Lemma saturate_16S_mono x y : x <= y -> saturate_16S x <= saturate_16S y.
Proof. unfold saturate_16S, SHRT_MIN, SHRT_MAX. intros ?. repeat case_match; lia. Qed.

Lemma saturate_8U_mono x y : x <= y -> saturate_8U x <= saturate_8U y.
Proof.
  unfold saturate_8U, UCHAR_MAX. intros ?. repeat case_match; lia.
Qed.

Lemma bias_plane_map c m sub add :
  bias_plane c m sub add = (fun v => bias_value c v sub add) <$> m.
Proof.
  unfold bias_plane, bias_expr, convertTo_8U, convertTo_16S,
    mat_min, mat_add, mat_max, mat_sub.
  rewrite <- !list_fmap_compose. reflexivity.
Qed.

Lemma domain_max_bounds c : 179 <= domain_max c <= 255.
Proof. destruct c; simpl; lia. Qed.

(** Closed form of the element computation on in-domain operands: nothing
    saturates, and the lower clamp sits between the subtraction and the
    addition. *)
Lemma bias_16S_closed c v sub add :
  fits_8U v -> in_domain c sub -> in_domain c add ->
  bias_16S c v sub add = Z.min (Z.max (v - sub) 0 + add) (domain_max c).
Proof.
  unfold fits_8U, in_domain, UCHAR_MAX. intros Hv Hs Ha.
  pose proof (domain_max_bounds c) as Hd.
  unfold bias_16S, min_16S, add_16S, max_16S, sub_16S.
  rewrite (saturate_16S_fits v) by (unfold fits_16S, SHRT_MIN, SHRT_MAX; lia).
  rewrite (saturate_16S_fits (v - sub)) by (unfold fits_16S, SHRT_MIN, SHRT_MAX; lia).
  rewrite (saturate_16S_fits 0) by (unfold fits_16S, SHRT_MIN, SHRT_MAX; lia).
  rewrite (saturate_16S_fits (domain_max c)) by (unfold fits_16S, SHRT_MIN, SHRT_MAX; lia).
  rewrite (saturate_16S_fits (_ + add)) by (unfold fits_16S, SHRT_MIN, SHRT_MAX; lia).
  reflexivity.
Qed.

Lemma bias_value_closed c v sub add :
  fits_8U v -> in_domain c sub -> in_domain c add ->
  bias_value c v sub add = Z.min (Z.max (v - sub) 0 + add) (domain_max c).
Proof.
  intros Hv Hs Ha. unfold bias_value. rewrite bias_16S_closed by assumption.
  pose proof (domain_max_bounds c) as Hd. unfold in_domain in *.
  apply saturate_8U_fits. unfold fits_8U, UCHAR_MAX. lia.
Qed.

(** The biased value is always a value of the channel's domain. *)
Lemma bias_value_in_domain c v sub add :
  fits_8U v -> in_domain c sub -> in_domain c add ->
  in_domain c (bias_value c v sub add).
Proof.
  intros Hv Hs Ha. rewrite bias_value_closed by assumption.
  unfold in_domain in *. pose proof (domain_max_bounds c). lia.
Qed.

(** Each element operator is monotone in the operand it is monotone in. *)
Lemma bias_16S_mono_add c v sub add1 add2 :
  add1 <= add2 -> bias_16S c v sub add1 <= bias_16S c v sub add2.
Proof.
  intros H. unfold bias_16S, min_16S, add_16S.
  apply Z.min_le_compat_r, saturate_16S_mono. lia.
Qed.

Lemma bias_16S_anti_sub c v sub1 sub2 add :
  sub1 <= sub2 -> bias_16S c v sub2 add <= bias_16S c v sub1 add.
Proof.
  intros H. unfold bias_16S, min_16S, add_16S, max_16S, sub_16S.
  apply Z.min_le_compat_r, saturate_16S_mono, Z.add_le_mono_r,
    Z.max_le_compat_r, saturate_16S_mono. lia.
Qed.

Lemma merge_fmap {A} (f g h : A -> Z) (l : list A) :
  merge (f <$> l) (g <$> l) (h <$> l) = (fun a => mkVec3b (f a) (g a) (h a)) <$> l.
Proof. induction l as [|a l IH]; csimpl; [reflexivity | by rewrite IH]. Qed.

Lemma merge_split img : let '(h, s, v) := split img in merge h s v = img.
Proof.
  change (merge (c0 <$> img) (c1 <$> img) (c2 <$> img) = img).
  rewrite merge_fmap.
  induction img as [|[x y z] img IH]; csimpl; [reflexivity | by rewrite IH].
Qed.

Lemma adjust_fmap k img : adjust k img = adjust_px k <$> img.
Proof.
  change (merge (bias_plane Hue (c0 <$> img) (hSub k) (hAdd k))
                (bias_plane Saturation (c1 <$> img) (sSub k) (sAdd k))
                (bias_plane Value (c2 <$> img) (vSub k) (vAdd k)) = adjust_px k <$> img).
  rewrite !bias_plane_map, <- !list_fmap_compose.
  apply merge_fmap.
Qed.

Lemma length_adjust k img : length (adjust k img) = length img.
Proof. rewrite adjust_fmap. apply length_fmap. Qed.

Lemma length_inRange src lo hi : length (inRange src lo hi) = length src.
Proof. apply length_fmap. Qed.

Lemma length_copyTo_masked src dst mask :
  length dst = length src -> length mask = length src ->
  length (copyTo_masked src dst mask) = length src.
Proof.
  revert dst mask. induction src as [|p src IH]; intros [|d dst] [|m mask]; simpl; try done.
  intros [=Hd] [=Hm]. by rewrite IH.
Qed.

(** Element [i] of a masked copy. *)
Lemma copyTo_masked_lookup src dst mask i p d m :
  src !! i = Some p -> dst !! i = Some d -> mask !! i = Some m ->
  copyTo_masked src dst mask !! i = Some (if m =? 0 then d else p).
Proof.
  revert dst mask i.
  induction src as [|p' src IH]; intros [|d' dst] [|m' mask] [|i]; simpl; try done.
  - by intros [= ->] [= ->] [= ->].
  - apply IH.
Qed.

Lemma copyTo_lookup src mask i p m :
  src !! i = Some p -> mask !! i = Some m ->
  copyTo src mask !! i = Some (if m =? 0 then zero3 else p).
Proof.
  intros Hp Hm. unfold copyTo. apply copyTo_masked_lookup; [done | | done].
  apply lookup_replicate_2. by apply lookup_lt_Some in Hp.
Qed.

Lemma shown_mask_process hsv_of_bgr bgr_of_hsv k img :
  shown_mask (process hsv_of_bgr bgr_of_hsv k img) = frame_mask hsv_of_bgr k img.
Proof. reflexivity. Qed.

Lemma cvtColor_BGR2HSV_skips_byte3 hsv_of_bgr f1 f2 :
  frames_differ_only_in_byte 3 f1 f2 ->
  cvtColor_BGR2HSV hsv_of_bgr f1 = cvtColor_BGR2HSV hsv_of_bgr f2.
Proof.
  unfold cvtColor_BGR2HSV. induction 1 as [|p q f1 f2 (H0 & H1 & H2 & _) _ IH]; csimpl.
  - reflexivity.
  - rewrite IH, H0, H1, H2 by lia. reflexivity.
Qed.

Example BGR2HSV_8U_black : BGR2HSV_8U 0 0 0 = mkVec3b 0 0 0.
Proof. reflexivity. Qed.

Example BGR2HSV_8U_blue : BGR2HSV_8U 255 0 0 = mkVec3b 120 255 255.
Proof. reflexivity. Qed.

Example BGR2HSV_8U_cyan : BGR2HSV_8U 255 255 0 = mkVec3b 90 255 255.
Proof. reflexivity. Qed.

Example BGR2HSV_8U_hue_wraps : BGR2HSV_8U 10 0 200 = mkVec3b 179 255 200.
Proof. reflexivity. Qed.

Example stoi_640 : stoi "640" = Some 640.
Proof. reflexivity. Qed.

Example stoi_trailing : stoi "  -48px" = Some (-48).
Proof. reflexivity. Qed.

Example stoi_invalid : stoi "wide" = None.
Proof. reflexivity. Qed.

(** ** The bias stage *)

(** With both offsets at zero an in-domain value passes unchanged. *)
Lemma bias_value_zero c v : in_domain c v -> bias_value c v 0 0 = v.
Proof.
  intros Hv. pose proof (domain_max_bounds c) as Hd.
  rewrite bias_value_closed; unfold in_domain, fits_8U, UCHAR_MAX in *; lia.
Qed.

Lemma adjust_px_zero k p :
  hAdd k = 0 -> sAdd k = 0 -> vAdd k = 0 ->
  hSub k = 0 -> sSub k = 0 -> vSub k = 0 ->
  hsv_px_in_domain p -> adjust_px k p = p.
Proof.
  unfold adjust_px. intros -> -> -> -> -> -> (H0 & H1 & H2). destruct p as [x y z].
  simpl in *. by rewrite !bias_value_zero.
Qed.

(** C1, as the specification words it, fails: with v = 10, sub = 20 and
    add = 5 on the saturation channel the combined value 10 - 20 + 5 is
    negative, so a single clip gives 0, but the program clamps the
    difference 10 - 20 to 0 before it adds and stores 5. *)
Lemma bias_single_clip_fails :
  in_domain Saturation 10 /\ in_domain Saturation 20 /\ in_domain Saturation 5 /\
  10 - 20 + 5 < 0 /\
  clip Saturation (10 - 20 + 5) = 0 /\
  bias_value Saturation 10 20 5 = 5 /\
  bias_value Saturation 10 20 5 <> clip Saturation (10 - 20 + 5).
Proof. unfold in_domain. simpl. repeat split; try lia; vm_compute; congruence. Qed.

(** C1, amended: for in-domain [v], [sub] and [add] the bias lines compute
    min(max(v - sub, 0) + add, domain_max): subtract, clamp the difference
    at 0 from below, add, clamp at the domain maximum from above.  The
    result is the single clip of v - sub + add when sub <= v and is [add]
    otherwise; a combined value above the domain maximum maps to the domain
    maximum. *)
Theorem bias_value_two_clamps c v sub add :
  in_domain c v -> in_domain c sub -> in_domain c add ->
  bias_value c v sub add = Z.min (Z.max (v - sub) 0 + add) (domain_max c) /\
  bias_value c v sub add = (if sub <=? v then clip c (v - sub + add) else add) /\
  (domain_max c < v - sub + add -> bias_value c v sub add = domain_max c).
Proof.
  intros Hv Hs Ha. pose proof (domain_max_bounds c) as Hd.
  rewrite bias_value_closed by (unfold in_domain, fits_8U, UCHAR_MAX in *; lia || done).
  unfold in_domain, clip in *. repeat split; [case_match|]; lia.
Qed.

Lemma bias_value_two_clamps_witness :
  (in_domain Saturation 200 /\ in_domain Saturation 10 /\ in_domain Saturation 100 /\
   domain_max Saturation < 200 - 10 + 100) /\
  bias_value Saturation 200 10 100 = domain_max Saturation.
Proof.
  assert (H : in_domain Saturation 200 /\ in_domain Saturation 10 /\
              in_domain Saturation 100 /\ domain_max Saturation < 200 - 10 + 100)
    by (unfold in_domain; simpl; lia).
  split; [exact H|].
  destruct H as (Hv & Hs & Ha & Hover).
  exact (proj2 (proj2 (bias_value_two_clamps Saturation 200 10 100 Hv Hs Ha)) Hover).
Defined.

(** C5: the stored result never decreases when [add] grows and never
    increases when [sub] grows (for all integer operands, in particular for
    those of the channel's domain). *)
Theorem bias_value_monotone c v sub1 sub2 add1 add2 :
  sub1 <= sub2 -> add1 <= add2 ->
  bias_value c v sub1 add1 <= bias_value c v sub1 add2 /\
  bias_value c v sub2 add1 <= bias_value c v sub1 add1.
Proof.
  intros Hs Ha. unfold bias_value. split; apply saturate_8U_mono.
  - by apply bias_16S_mono_add.
  - by apply bias_16S_anti_sub.
Qed.

Lemma bias_value_monotone_witness :
  (3 <= 40 /\ 7 <= 90) /\
  bias_value Hue 100 3 7 <= bias_value Hue 100 3 90 /\
  bias_value Hue 100 40 7 <= bias_value Hue 100 3 7.
Proof.
  assert (H : 3 <= 40 /\ 7 <= 90) by lia.
  split; [exact H|].
  exact (bias_value_monotone Hue 100 3 40 7 90 (proj1 H) (proj2 H)).
Defined.

(** C6: on in-domain operands every operator of the CV_16S expression has
    an exact result that fits in 16 signed bits, so no [saturate_cast<short>]
    changes a value; the final value lies in the channel's domain, so the
    conversion back to CV_8U changes nothing either. *)
Theorem bias_no_overflow c v sub add :
  in_domain c v -> in_domain c sub -> in_domain c add ->
  let t0 := saturate_16S v in
  let t1 := sub_16S t0 sub in
  let t2 := max_16S t1 0 in
  let t3 := add_16S t2 add in
  let t4 := min_16S t3 (domain_max c) in
  (fits_16S v /\ fits_16S (t0 - sub) /\ fits_16S 0 /\
   fits_16S (t2 + add) /\ fits_16S (domain_max c)) /\
  (t0 = v /\ t1 = v - sub /\ t2 = Z.max (v - sub) 0 /\
   t3 = Z.max (v - sub) 0 + add /\ t4 = bias_16S c v sub add) /\
  in_domain c t4 /\ saturate_8U t4 = t4.
Proof.
  intros Hv Hs Ha. pose proof (domain_max_bounds c) as Hd.
  unfold in_domain in *.
  assert (F : forall x, -600 <= x <= 600 -> saturate_16S x = x)
    by (intros; apply saturate_16S_fits; unfold fits_16S, SHRT_MIN, SHRT_MAX; lia).
  cbv zeta. unfold bias_16S, min_16S, add_16S, max_16S, sub_16S.
  rewrite (F v), (F (v - sub)), (F 0), (F (domain_max c)), (F (_ + add)) by lia.
  unfold fits_16S, SHRT_MIN, SHRT_MAX.
  repeat split; try lia.
  apply saturate_8U_fits. unfold fits_8U, UCHAR_MAX. lia.
Qed.

Lemma bias_no_overflow_witness :
  (in_domain Value 255 /\ in_domain Value 0 /\ in_domain Value 255) /\
  add_16S (max_16S (sub_16S (saturate_16S 255) 0) 0) 255 = 510 /\
  saturate_8U (bias_16S Value 255 0 255) = bias_16S Value 255 0 255.
Proof.
  assert (H : in_domain Value 255 /\ in_domain Value 0 /\ in_domain Value 255)
    by (unfold in_domain; simpl; lia).
  split; [exact H|]. split; [reflexivity|].
  destruct H as (Hv & Hs & Ha).
  exact (proj2 (proj2 (proj2 (bias_no_overflow Value 255 0 255 Hv Hs Ha)))).
Defined.

(** C9: with all six offsets at zero the bias stage returns every frame of
    the inspection space unchanged. *)
Theorem adjust_zero_bias_identity k (imgHSV : list Vec3b) :
  hAdd k = 0 -> sAdd k = 0 -> vAdd k = 0 ->
  hSub k = 0 -> sSub k = 0 -> vSub k = 0 ->
  Forall hsv_px_in_domain imgHSV ->
  adjust k imgHSV = imgHSV.
Proof.
  intros Ha0 Ha1 Ha2 Hs0 Hs1 Hs2 Hdom. rewrite adjust_fmap.
  induction Hdom as [|p img Hp _ IH]; csimpl; [reflexivity|].
  rewrite IH. f_equal. by apply adjust_px_zero.
Qed.

Lemma adjust_zero_bias_identity_witness :
  Forall hsv_px_in_domain [mkVec3b 179 255 0; mkVec3b 90 17 255] /\
  adjust initial_controls [mkVec3b 179 255 0; mkVec3b 90 17 255]
  = [mkVec3b 179 255 0; mkVec3b 90 17 255].
Proof.
  assert (H : Forall hsv_px_in_domain [mkVec3b 179 255 0; mkVec3b 90 17 255])
    by (repeat constructor; simpl; lia).
  split; [exact H|].
  exact (adjust_zero_bias_identity initial_controls _
           eq_refl eq_refl eq_refl eq_refl eq_refl eq_refl H).
Defined.

(** After the bias lines every pixel is a pixel of the inspection space,
    whatever 8-bit values the conversion produced. *)
Lemma adjust_px_in_domain k p :
  controls_in_domain k ->
  fits_8U (c0 p) -> fits_8U (c1 p) -> fits_8U (c2 p) ->
  hsv_px_in_domain (adjust_px k p).
Proof.
  intros (_ & _ & _ & _ & _ & _ & Ha0 & Ha1 & Ha2 & Hs0 & Hs1 & Hs2) H0 H1 H2.
  unfold hsv_px_in_domain, adjust_px. simpl.
  repeat split; apply bias_value_in_domain; assumption.
Qed.

(** ** The mask and the masked copy *)

Lemma inRange_px_255 lo hi p : inRange_px lo hi p = 255 <-> within_bounds lo hi p.
Proof. unfold inRange_px, within_bounds. case_match; split; intros; lia. Qed.

Lemma inRange_px_0 lo hi p : inRange_px lo hi p = 0 <-> ~ within_bounds lo hi p.
Proof. unfold inRange_px, within_bounds. case_match; split; intros; lia. Qed.

(** C4: element [i] of the mask is 255 exactly when the three inclusive
    bound checks hold for pixel [i] and 0 exactly when one of them fails; a
    channel whose lower bound exceeds its upper bound empties the mask; the
    full ranges give a mask of 255 on every frame of the inspection space. *)
Theorem inRange_mask (src : list Vec3b) (lowerb upperb : Scalar) :
  length (inRange src lowerb upperb) = length src /\
  (forall i p, src !! i = Some p ->
     exists m, inRange src lowerb upperb !! i = Some m /\
               (m = 255 <-> within_bounds lowerb upperb p) /\
               (m = 0 <-> ~ within_bounds lowerb upperb p)) /\
  (s0 upperb < s0 lowerb \/ s1 upperb < s1 lowerb \/ s2 upperb < s2 lowerb ->
     inRange src lowerb upperb = replicate (length src) 0) /\
  (lowerb = mkScalar 0 0 0 ->
   upperb = mkScalar (domain_max Hue) (domain_max Saturation) (domain_max Value) ->
   Forall hsv_px_in_domain src ->
     inRange src lowerb upperb = replicate (length src) 255).
Proof.
  split; [apply length_inRange|]. split; [|split].
  - intros i p Hp. exists (inRange_px lowerb upperb p). split.
    + unfold inRange. by rewrite list_lookup_fmap, Hp.
    + split; [apply inRange_px_255 | apply inRange_px_0].
  - intros Hempty. unfold inRange. apply const_fmap.
    intros _ p _. apply inRange_px_0. unfold within_bounds. lia.
  - intros -> -> Hdom. unfold inRange. apply const_fmap.
    intros i p Hp. apply inRange_px_255.
    pose proof (proj1 (Forall_lookup _ _) Hdom i p Hp) as Hpx.
    unfold hsv_px_in_domain, in_domain, within_bounds in *. simpl in *. lia.
Qed.

Lemma inRange_mask_witness :
  (mkVec3b 90 200 40 :: [mkVec3b 0 0 0]) !! 0%nat = Some (mkVec3b 90 200 40) /\
  s0 (mkScalar 0 0 0) < s0 (mkScalar 1 0 0) /\
  Forall hsv_px_in_domain [mkVec3b 90 200 40; mkVec3b 0 0 0] /\
  inRange [mkVec3b 90 200 40; mkVec3b 0 0 0] (mkScalar 1 0 0) (mkScalar 0 0 0) = [0; 0] /\
  inRange [mkVec3b 90 200 40; mkVec3b 0 0 0] (mkScalar 0 0 0) (mkScalar 179 255 255)
  = [255; 255].
Proof.
  assert (Hlt : s0 (mkScalar 0 0 0) < s0 (mkScalar 1 0 0)) by (simpl; lia).
  assert (Hdom : Forall hsv_px_in_domain [mkVec3b 90 200 40; mkVec3b 0 0 0])
    by (repeat constructor; simpl; lia).
  split; [reflexivity|]. split; [exact Hlt|]. split; [exact Hdom|]. split.
  - exact (proj1 (proj2 (proj2 (inRange_mask [mkVec3b 90 200 40; mkVec3b 0 0 0]
                                   (mkScalar 1 0 0) (mkScalar 0 0 0))))
             (or_introl Hlt)).
  - exact (proj2 (proj2 (proj2 (inRange_mask [mkVec3b 90 200 40; mkVec3b 0 0 0]
                                   (mkScalar 0 0 0) (mkScalar 179 255 255))))
             eq_refl eq_refl Hdom).
Defined.

(** The scenario of the specification: hue bounds 0..0 exclude a pixel of
    hue 90 whatever the other bounds are. *)
Example inRange_hue_90_excluded s v lo1 hi1 lo2 hi2 :
  inRange [mkVec3b 90 s v] (mkScalar 0 lo1 lo2) (mkScalar 0 hi1 hi2) = [0].
Proof. reflexivity. Qed.

(** In [main] the mask is taken of the biased frame: when the conversion
    yields 8-bit values and the trackbars are within their ranges, the full
    ranges select every pixel of every frame. *)
Lemma frame_mask_full_range hsv_of_bgr k (img : list Vec4b) :
  (forall b g r, fits_8U (c0 (hsv_of_bgr b g r)) /\ fits_8U (c1 (hsv_of_bgr b g r)) /\
                 fits_8U (c2 (hsv_of_bgr b g r))) ->
  controls_in_domain k ->
  minH k = 0 -> minS k = 0 -> minV k = 0 ->
  maxH k = 179 -> maxS k = 255 -> maxV k = 255 ->
  frame_mask hsv_of_bgr k img = replicate (length img) 255.
Proof.
  intros Hker Hk. unfold frame_mask, adjusted_hsv, inRange. intros -> -> -> -> -> ->.
  rewrite adjust_fmap. unfold cvtColor_BGR2HSV. rewrite <- !list_fmap_compose.
  apply const_fmap. intros _ p _. simpl. apply inRange_px_255.
  destruct (Hker (byte0 p) (byte1 p) (byte2 p)) as (H0 & H1 & H2).
  pose proof (adjust_px_in_domain k _ Hk H0 H1 H2) as Hdom.
  unfold hsv_px_in_domain, in_domain, within_bounds in *. simpl in *. lia.
Qed.

(** C7: for a source and a mask of the same size the masked copy has that
    size, repeats the source pixel where the mask is 255 and is zero where
    the mask is 0. *)
Theorem copyTo_composite (src : list Vec3b) (mask : plane) :
  length mask = length src ->
  length (copyTo src mask) = length src /\
  forall i p m, src !! i = Some p -> mask !! i = Some m ->
    (m = 255 -> copyTo src mask !! i = Some p) /\
    (m = 0 -> copyTo src mask !! i = Some zero3).
Proof.
  intros Hlen. split.
  - unfold copyTo. apply length_copyTo_masked; [apply length_replicate | done].
  - intros i p m Hp Hm. rewrite (copyTo_lookup src mask i p m Hp Hm).
    split; intros ->; reflexivity.
Qed.

Lemma copyTo_composite_witness :
  length [255; 0] = length [mkVec3b 1 2 3; mkVec3b 4 5 6] /\
  copyTo [mkVec3b 1 2 3; mkVec3b 4 5 6] [255; 0] !! 0%nat = Some (mkVec3b 1 2 3) /\
  copyTo [mkVec3b 1 2 3; mkVec3b 4 5 6] [255; 0] !! 1%nat = Some zero3.
Proof.
  assert (Hlen : length [255; 0] = length [mkVec3b 1 2 3; mkVec3b 4 5 6]) by reflexivity.
  split; [exact Hlen|].
  pose proof (proj2 (copyTo_composite [mkVec3b 1 2 3; mkVec3b 4 5 6] [255; 0] Hlen)) as H.
  split.
  - exact (proj1 (H 0%nat (mkVec3b 1 2 3) 255 eq_refl eq_refl) eq_refl).
  - exact (proj2 (H 1%nat (mkVec3b 4 5 6) 0 eq_refl eq_refl) eq_refl).
Defined.

(** ** The per-frame transform and the ignored byte *)

(** C3, as the specification words it, fails: byte 0 of a pixel is the blue
    channel of [COLOR_BGR2HSV].  A black pixel and a pixel that differs from
    it in byte 0 only get different mask values once "Val (max)" is 100. *)
Lemma mask_depends_on_byte0 :
  frames_differ_only_in_byte 0 [mkVec4b 0 0 0 0] [mkVec4b 255 0 0 0] /\
  frame_mask Kernel8U.BGR2HSV_8U dark_only [mkVec4b 0 0 0 0] = [255] /\
  frame_mask Kernel8U.BGR2HSV_8U dark_only [mkVec4b 255 0 0 0] = [0] /\
  shown_mask (process Kernel8U.BGR2HSV_8U (fun p => p) dark_only [mkVec4b 0 0 0 0])
  <> shown_mask (process Kernel8U.BGR2HSV_8U (fun p => p) dark_only [mkVec4b 255 0 0 0]).
Proof.
  split.
  - repeat constructor; simpl; intros; congruence.
  - split; [reflexivity|]. split; [reflexivity|]. vm_compute. congruence.
Qed.

(** C3, amended: the byte that the transform ignores is byte 3, the last of
    the four.  Two frames that differ only in byte 3 of some pixels give the
    same mask and the same masked image, whatever the two colour kernels
    and the trackbar positions are. *)
Theorem process_ignores_byte3 hsv_of_bgr bgr_of_hsv k (f1 f2 : list Vec4b) :
  frames_differ_only_in_byte 3 f1 f2 ->
  process hsv_of_bgr bgr_of_hsv k f1 = process hsv_of_bgr bgr_of_hsv k f2.
Proof.
  intros Hsame. unfold process, adjusted_hsv.
  by rewrite (cvtColor_BGR2HSV_skips_byte3 hsv_of_bgr f1 f2 Hsame).
Qed.

Lemma process_ignores_byte3_witness :
  frames_differ_only_in_byte 3 [mkVec4b 10 0 200 0; mkVec4b 255 255 0 7]
                               [mkVec4b 10 0 200 255; mkVec4b 255 255 0 7] /\
  process Kernel8U.BGR2HSV_8U (fun p => p) dark_only
          [mkVec4b 10 0 200 0; mkVec4b 255 255 0 7]
  = process Kernel8U.BGR2HSV_8U (fun p => p) dark_only
            [mkVec4b 10 0 200 255; mkVec4b 255 255 0 7].
Proof.
  assert (H : frames_differ_only_in_byte 3 [mkVec4b 10 0 200 0; mkVec4b 255 255 0 7]
                                           [mkVec4b 10 0 200 255; mkVec4b 255 255 0 7])
    by (repeat constructor; simpl; intros; congruence).
  split; [exact H|].
  exact (process_ignores_byte3 Kernel8U.BGR2HSV_8U (fun p => p) dark_only _ _ H).
Defined.

(** The scenario of the specification: an all-black 2x2 frame under the
    opening trackbar positions has a mask of 255 everywhere. *)
Example black_frame_mask :
  frame_mask Kernel8U.BGR2HSV_8U initial_controls (replicate 4 (mkVec4b 0 0 0 0))
  = replicate 4 255.
Proof. reflexivity. Qed.

(** ** Start-up *)

Lemma usage_trace_quiet argv0 :
  attach_attempted (Cerr <$> usage argv0) = false /\
  loop_entered (Cerr <$> usage argv0) = false.
Proof. split; reflexivity. Qed.

(** The run of [main] when the arguments parse and the attach fails. *)
Lemma main_attach_invalid hsv_of_bgr bgr_of_hsv argv0 (args : gmap string string) env
    name width height w h :
  args !! "name" = Some name -> args !! "width" = Some width ->
  args !! "height" = Some height ->
  stoi width = Some w -> stoi height = Some h ->
  attach env name = None ->
  run_main hsv_of_bgr bgr_of_hsv argv0 args env = (Exited 0, [Attach name]).
Proof.
  intros Hn Hw Hh Hsw Hsh Hatt. unfold run_main, main, count, at_key.
  rewrite Hn, Hw, Hh. simpl. rewrite Hsw, Hsh. simpl.
  unfold mbind, M_bind, emit. simpl. by rewrite Hatt.
Qed.

(** C8: when [name], [width] or [height] is missing, [main] reports the
    usage message on [std::cerr], six lines that name the program, its
    purpose and the three options, and returns 1; these six lines are all
    it does: it never tries to attach and never evaluates the loop
    condition. *)
Theorem main_missing_argument hsv_of_bgr bgr_of_hsv argv0 (args : gmap string string) env :
  args !! "name" = None \/ args !! "width" = None \/ args !! "height" = None ->
  run_main hsv_of_bgr bgr_of_hsv argv0 args env = (Exited 1, Cerr <$> usage argv0) /\
  (run_main hsv_of_bgr bgr_of_hsv argv0 args env).2
  = [ Cerr (argv0 +:+ " attaches to a shared memory area containing an ARGB image and transform it to HSV color space for inspection.");
      Cerr ("Usage:   " +:+ argv0 +:+ " --name=<name of shared memory area> --width=<W> --height=<H>");
      Cerr "         --name:   name of the shared memory area to attach";
      Cerr "         --width:  width of the frame";
      Cerr "         --height: height of the frame";
      Cerr ("Example: " +:+ argv0 +:+ " --name=img.argb --width=640 --height=480") ] /\
  attach_attempted (run_main hsv_of_bgr bgr_of_hsv argv0 args env).2 = false /\
  loop_entered (run_main hsv_of_bgr bgr_of_hsv argv0 args env).2 = false.
Proof.
  intros Hmiss.
  assert (Hrun : run_main hsv_of_bgr bgr_of_hsv argv0 args env
                 = (Exited 1, Cerr <$> usage argv0)).
  { unfold run_main, main, count.
    assert (Hcond : (0 =? match args !! "name" with Some _ => 1 | None => 0 end)
                    || (0 =? match args !! "width" with Some _ => 1 | None => 0 end)
                    || (0 =? match args !! "height" with Some _ => 1 | None => 0 end)
                    = true).
    { destruct Hmiss as [-> | [-> | ->]]; simpl; repeat case_match; reflexivity. }
    rewrite Hcond. reflexivity. }
  rewrite Hrun. split; [reflexivity|]. split; [reflexivity|]. split; reflexivity.
Qed.

Lemma main_missing_argument_witness :
  ({["name" := "img.argb"; "height" := "480"]} : gmap string string) !! "width" = None /\
  run_main Kernel8U.BGR2HSV_8U (fun p => p) "inspector"
           {["name" := "img.argb"; "height" := "480"]}
           (mkEnv (fun _ => Some 4) [mkTick (-1) initial_controls [mkVec4b 0 0 0 0]])
  = (Exited 1,
     [ Cerr "inspector attaches to a shared memory area containing an ARGB image and transform it to HSV color space for inspection.";
       Cerr "Usage:   inspector --name=<name of shared memory area> --width=<W> --height=<H>";
       Cerr "         --name:   name of the shared memory area to attach";
       Cerr "         --width:  width of the frame";
       Cerr "         --height: height of the frame";
       Cerr "Example: inspector --name=img.argb --width=640 --height=480" ]).
Proof.
  assert (H : ({["name" := "img.argb"; "height" := "480"]} : gmap string string)
              !! "width" = None) by (vm_compute; reflexivity).
  split; [exact H|].
  pose proof (main_missing_argument Kernel8U.BGR2HSV_8U (fun p => p) "inspector" _
                (mkEnv (fun _ => Some 4) [mkTick (-1) initial_controls [mkVec4b 0 0 0 0]])
                (or_intror (or_introl H))) as (Hrun & Htrace & _).
  rewrite (surjective_pairing (run_main _ _ _ _ _)), Htrace.
  f_equal; exact (f_equal fst Hrun).
Defined.

(** C2: with all three arguments present and no segment to attach to, the
    loop is never entered, but [main] returns 0: [retCode = 0] on line 154
    is outside the test on line 48. *)
Theorem main_attach_failure_returns_0 hsv_of_bgr bgr_of_hsv :
  run_main hsv_of_bgr bgr_of_hsv "opendlv-video-hsv-inspector"
           {["name" := "img.argb"; "width" := "640"; "height" := "480"]}
           (mkEnv (fun _ => None) [mkTick (-1) initial_controls [mkVec4b 0 0 0 0]])
  = (Exited 0, [Attach "img.argb"]) /\
  loop_entered [Attach "img.argb"] = false.
Proof. split; [vm_compute; reflexivity | reflexivity]. Qed.

(** ** The critical section *)

Lemma iteration_run hsv_of_bgr bgr_of_hsv t s :
  iteration hsv_of_bgr bgr_of_hsv t s
  = (tt, mkState false
           (trace s ++ iteration_entries hsv_of_bgr bgr_of_hsv t (held s))).
Proof.
  cbv beta iota zeta
      delta [iteration call lock unlock emit mbind M_bind mret M_ret held trace split].
  rewrite <- !app_assoc. reflexivity.
Qed.

Lemma iteration_entries_under_lock hsv_of_bgr bgr_of_hsv t :
  under_lock (iteration_entries hsv_of_bgr bgr_of_hsv t false) = [CvarrToMat].
Proof. reflexivity. Qed.

Lemma iteration_entries_processing hsv_of_bgr bgr_of_hsv t b :
  Forall (fun en => is_processing en.1 = true -> en.2 = false)
         (iteration_entries hsv_of_bgr bgr_of_hsv t b).
Proof. unfold iteration_entries, processing_events. repeat constructor; simpl; congruence. Qed.

(** The lock is free whenever the loop condition is evaluated, and free when
    the loop is left. *)
Lemma loop_releases hsv_of_bgr bgr_of_hsv ts s :
  held s = false -> held (loop hsv_of_bgr bgr_of_hsv ts s).2 = false.
Proof.
  revert s. induction ts as [|t ts IH]; intros s Hs; [exact Hs|].
  cbn [loop]. unfold mbind, M_bind, emit. cbn [fst snd held trace].
  destruct (key t =? 0); [exact Hs|].
  rewrite iteration_run. apply IH. reflexivity.
Qed.

(** C10: in a pass of the loop that starts with the lock free, the lock is
    taken once and is free again at the end; the only call made while it is
    held is [cvarrToMat], which rebinds the image header; every conversion,
    bias, mask and display call comes after the unlock, with the lock free. *)
Theorem iteration_critical_section hsv_of_bgr bgr_of_hsv t s :
  held s = false ->
  exists new,
    trace (iteration hsv_of_bgr bgr_of_hsv t s).2 = trace s ++ new /\
    held (iteration hsv_of_bgr bgr_of_hsv t s).2 = false /\
    new = (Lock, false) :: (CvarrToMat, true) :: (Unlock, true) ::
          ((fun e => (e, false)) <$> processing_events hsv_of_bgr bgr_of_hsv t) /\
    under_lock new = [CvarrToMat] /\
    Forall (fun en => is_processing en.1 = true -> en.2 = false) new.
Proof.
  intros Hs. exists (iteration_entries hsv_of_bgr bgr_of_hsv t false).
  rewrite iteration_run, Hs. cbn [snd trace held].
  split; [reflexivity|]. split; [reflexivity|]. split; [reflexivity|].
  split; [apply iteration_entries_under_lock | apply iteration_entries_processing].
Qed.

Lemma iteration_critical_section_witness :
  held initial_state = false /\
  under_lock (trace (iteration Kernel8U.BGR2HSV_8U (fun p => p)
                       (mkTick (-1) initial_controls [mkVec4b 255 0 0 0])
                       initial_state).2)
  = [CvarrToMat].
Proof.
  assert (H : held initial_state = false) by reflexivity.
  split; [exact H|].
  destruct (iteration_critical_section Kernel8U.BGR2HSV_8U (fun p => p)
              (mkTick (-1) initial_controls [mkVec4b 255 0 0 0]) initial_state H)
    as (new & Htr & _ & _ & Hlock & _).
  rewrite Htr. exact Hlock.
Defined.

(** * Further properties of the code *)

(** ** More on the bias lines *)

(** X1: on in-domain operands the stored value is never below [add] and
    never above the channel maximum, and it exceeds [add] by at most what
    the subtraction left of the input. *)
Theorem bias_value_bounds c v sub add :
  in_domain c v -> in_domain c sub -> in_domain c add ->
  add <= bias_value c v sub add <= domain_max c /\
  bias_value c v sub add <= Z.max (v - sub) 0 + add.
Proof.
  intros Hv Hs Ha. pose proof (domain_max_bounds c) as Hd.
  rewrite bias_value_closed by (unfold in_domain, fits_8U, UCHAR_MAX in *; lia || done).
  unfold in_domain in *. lia.
Qed.

Lemma bias_value_bounds_witness :
  (in_domain Hue 30 /\ in_domain Hue 100 /\ in_domain Hue 40) /\
  40 <= bias_value Hue 30 100 40 <= domain_max Hue.
Proof.
  assert (H : in_domain Hue 30 /\ in_domain Hue 100 /\ in_domain Hue 40)
    by (unfold in_domain; simpl; lia).
  split; [exact H|].
  destruct H as (Hv & Hs & Ha).
  exact (proj1 (bias_value_bounds Hue 30 100 40 Hv Hs Ha)).
Defined.

(** X2: equal offsets do not cancel.  Subtracting and adding the same
    in-domain amount [d] leaves the values from [d] upwards unchanged and
    lifts every smaller value to [d]. *)
Theorem bias_value_equal_offsets c v d :
  in_domain c v -> in_domain c d -> bias_value c v d d = Z.max v d.
Proof.
  intros Hv Hd. pose proof (domain_max_bounds c) as Hc.
  rewrite bias_value_closed by (unfold in_domain, fits_8U, UCHAR_MAX in *; lia || done).
  unfold in_domain in *. lia.
Qed.

Lemma bias_value_equal_offsets_witness :
  (in_domain Value 12 /\ in_domain Value 50) /\ bias_value Value 12 50 50 = 50.
Proof.
  assert (H : in_domain Value 12 /\ in_domain Value 50)
    by (unfold in_domain; simpl; lia).
  split; [exact H|].
  exact (bias_value_equal_offsets Value 12 50 (proj1 H) (proj2 H)).
Defined.

(** X3: the bias lines keep the order of pixel values: a value that is not
    larger before is not larger after, for any offsets. *)
Theorem bias_value_monotone_in_value c v1 v2 sub add :
  v1 <= v2 -> bias_value c v1 sub add <= bias_value c v2 sub add.
Proof.
  intros Hv. unfold bias_value, bias_16S, min_16S, add_16S, max_16S, sub_16S.
  apply saturate_8U_mono, Z.min_le_compat_r, saturate_16S_mono, Z.add_le_mono_r,
    Z.max_le_compat_r, saturate_16S_mono, Z.sub_le_mono_r, saturate_16S_mono, Hv.
Qed.

Lemma bias_value_monotone_in_value_witness :
  17 <= 200 /\ bias_value Saturation 17 30 90 <= bias_value Saturation 200 30 90.
Proof.
  assert (H : 17 <= 200) by lia.
  split; [exact H|].
  exact (bias_value_monotone_in_value Saturation 17 200 30 90 H).
Defined.

(** X4: whatever 8-bit values the conversion produced (a hue above 179
    included), after lines 120 to 132 every pixel of the frame lies in the
    inspection space, and the frame has kept its size. *)
Theorem adjust_in_domain k (imgHSV : list Vec3b) :
  controls_in_domain k -> Forall px_8U imgHSV ->
  Forall hsv_px_in_domain (adjust k imgHSV) /\
  length (adjust k imgHSV) = length imgHSV.
Proof.
  intros Hk Himg. split; [|apply length_adjust].
  rewrite adjust_fmap. apply Forall_fmap. eapply Forall_impl; [exact Himg|].
  intros p (H0 & H1 & H2). by apply adjust_px_in_domain.
Qed.

Lemma adjust_in_domain_witness :
  (controls_in_domain dark_only /\ Forall px_8U [mkVec3b 240 255 255]) /\
  Forall hsv_px_in_domain (adjust dark_only [mkVec3b 240 255 255]).
Proof.
  assert (H : controls_in_domain dark_only /\ Forall px_8U [mkVec3b 240 255 255])
    by (unfold controls_in_domain, in_domain, px_8U, fits_8U, UCHAR_MAX;
        split; [simpl; lia | repeat constructor; simpl; lia]).
  split; [exact H|].
  exact (proj1 (adjust_in_domain dark_only [mkVec3b 240 255 255] (proj1 H) (proj2 H))).
Defined.

(** X5: [cv::split] and [cv::merge] are inverse to each other on three
    channel planes of one size. *)
Theorem split_merge_inverse (img : list Vec3b) (h s v : plane) :
  (let '(h', s', v') := split img in merge h' s' v' = img) /\
  (length h = length s -> length s = length v -> split (merge h s v) = (h, s, v)).
Proof.
  split; [apply merge_split|].
  revert s v. induction h as [|x h IH]; intros [|y s] [|z v]; try done.
  intros [= Hhs] [= Hsv]. specialize (IH s v Hhs Hsv).
  unfold split in *. csimpl. by injection IH as -> -> ->.
Qed.

Lemma split_merge_inverse_witness :
  (length [1; 2] = length [3; 4] /\ length [3; 4] = length [5; 6]) /\
  split (merge [1; 2] [3; 4] [5; 6]) = ([1; 2], [3; 4], [5; 6]).
Proof.
  assert (H : length [1; 2] = length [3; 4] /\ length [3; 4] = length [5; 6])
    by (split; reflexivity).
  split; [exact H|].
  exact (proj2 (split_merge_inverse [] [1; 2] [3; 4] [5; 6]) (proj1 H) (proj2 H)).
Defined.

(** ** More on the mask and the per-frame transform *)

(** X6: widening the bounds never removes a pixel from the mask. *)
Theorem inRange_widen (src : list Vec3b) (lo hi lo' hi' : Scalar) (i : nat) :
  s0 lo' <= s0 lo -> s1 lo' <= s1 lo -> s2 lo' <= s2 lo ->
  s0 hi <= s0 hi' -> s1 hi <= s1 hi' -> s2 hi <= s2 hi' ->
  inRange src lo hi !! i = Some 255 -> inRange src lo' hi' !! i = Some 255.
Proof.
  intros L0 L1 L2 U0 U1 U2. unfold inRange. rewrite !list_lookup_fmap.
  destruct (src !! i) as [p|]; [|done]. simpl. intros [= Hin]. f_equal.
  apply inRange_px_255. apply inRange_px_255 in Hin.
  unfold within_bounds in *. lia.
Qed.

Lemma inRange_widen_witness :
  inRange [mkVec3b 90 200 40] (mkScalar 80 100 0) (mkScalar 100 255 50) !! 0%nat = Some 255 /\
  inRange [mkVec3b 90 200 40] (mkScalar 0 100 0) (mkScalar 179 255 255) !! 0%nat = Some 255.
Proof.
  assert (H : inRange [mkVec3b 90 200 40] (mkScalar 80 100 0) (mkScalar 100 255 50)
              !! 0%nat = Some 255) by reflexivity.
  split; [exact H|].
  refine (inRange_widen [mkVec3b 90 200 40] (mkScalar 80 100 0) (mkScalar 100 255 50)
            (mkScalar 0 100 0) (mkScalar 179 255 255) 0 _ _ _ _ _ _ H); simpl; lia.
Defined.

(** X7: an additive offset above the upper bound of its channel empties the
    mask: the biased values are all at least the offset. *)
Theorem frame_mask_empty_above_max hsv_of_bgr k (img : list Vec4b) :
  (forall b g r, px_8U (hsv_of_bgr b g r)) ->
  controls_in_domain k ->
  maxH k < hAdd k \/ maxS k < sAdd k \/ maxV k < vAdd k ->
  frame_mask hsv_of_bgr k img = replicate (length img) 0.
Proof.
  intros Hker Hk Habove. unfold frame_mask, adjusted_hsv, inRange.
  rewrite adjust_fmap. unfold cvtColor_BGR2HSV. rewrite <- !list_fmap_compose.
  apply const_fmap. intros _ p _. simpl. apply inRange_px_0.
  destruct (Hker (byte0 p) (byte1 p) (byte2 p)) as (H0 & H1 & H2).
  destruct Hk as (_ & _ & _ & _ & _ & _ & Ha0 & Ha1 & Ha2 & Hs0 & Hs1 & Hs2).
  set (q := hsv_of_bgr (byte0 p) (byte1 p) (byte2 p)) in *.
  pose proof (bias_value_closed Hue (c0 q) _ _ H0 Hs0 Ha0) as E0.
  pose proof (bias_value_closed Saturation (c1 q) _ _ H1 Hs1 Ha1) as E1.
  pose proof (bias_value_closed Value (c2 q) _ _ H2 Hs2 Ha2) as E2.
  unfold within_bounds, adjust_px, in_domain in *. simpl in *. lia.
Qed.

Lemma frame_mask_empty_above_max_witness :
  ((forall b g r : Z, px_8U ((fun _ _ _ => mkVec3b 10 20 30) b g r)) /\
   controls_in_domain (mkControls 0 50 0 255 0 255 60 0 0 0 0 0) /\
   maxH (mkControls 0 50 0 255 0 255 60 0 0 0 0 0)
   < hAdd (mkControls 0 50 0 255 0 255 60 0 0 0 0 0)) /\
  frame_mask (fun _ _ _ => mkVec3b 10 20 30)
             (mkControls 0 50 0 255 0 255 60 0 0 0 0 0) [mkVec4b 1 2 3 4] = [0].
Proof.
  assert (Hker : forall b g r : Z, px_8U ((fun _ _ _ => mkVec3b 10 20 30) b g r))
    by (intros _ _ _; unfold px_8U, fits_8U, UCHAR_MAX; simpl; lia).
  assert (Hk : controls_in_domain (mkControls 0 50 0 255 0 255 60 0 0 0 0 0))
    by (unfold controls_in_domain, in_domain; simpl; lia).
  assert (Hadd : maxH (mkControls 0 50 0 255 0 255 60 0 0 0 0 0)
                 < hAdd (mkControls 0 50 0 255 0 255 60 0 0 0 0 0)) by (simpl; lia).
  split; [exact (conj Hker (conj Hk Hadd))|].
  exact (frame_mask_empty_above_max (fun _ _ _ => mkVec3b 10 20 30) _
           [mkVec4b 1 2 3 4] Hker Hk (or_introl Hadd)).
Defined.

(** X8: both displayed images have as many pixels as the frame. *)
Theorem process_dimensions hsv_of_bgr bgr_of_hsv k (img : list Vec4b) :
  length (shown_mask (process hsv_of_bgr bgr_of_hsv k img)) = length img /\
  length (shown_filtered (process hsv_of_bgr bgr_of_hsv k img)) = length img.
Proof.
  unfold process, adjusted_hsv, cvtColor_HSV2BGR, cvtColor_BGR2HSV. simpl.
  assert (Hm : forall lo hi, length (inRange (adjust k
             ((fun p => hsv_of_bgr (byte0 p) (byte1 p) (byte2 p)) <$> img)) lo hi)
             = length img)
    by (intros; by rewrite length_inRange, length_adjust, length_fmap).
  split; [apply Hm|].
  unfold copyTo. rewrite length_copyTo_masked; rewrite ?length_replicate, ?Hm;
    by rewrite ?length_fmap, ?length_adjust, ?length_fmap.
Qed.

(** X9: the transform works pixel by pixel.  Pixel [i] of the mask is the
    bound check on the biased conversion of bytes 0 to 2 of pixel [i] of the
    frame, and pixel [i] of the other image is that biased pixel converted
    back where the check holds and black where it fails. *)
Theorem process_pointwise hsv_of_bgr bgr_of_hsv k (img : list Vec4b) (i : nat) p :
  img !! i = Some p ->
  let q := adjust_px k (hsv_of_bgr (byte0 p) (byte1 p) (byte2 p)) in
  let m := inRange_px (mkScalar (minH k) (minS k) (minV k))
                      (mkScalar (maxH k) (maxS k) (maxV k)) q in
  (m = 255 \/ m = 0) /\
  shown_mask (process hsv_of_bgr bgr_of_hsv k img) !! i = Some m /\
  shown_filtered (process hsv_of_bgr bgr_of_hsv k img) !! i
  = Some (if m =? 255 then bgr_of_hsv q else zero3).
Proof.
  intros Hp q m.
  assert (Hq : adjusted_hsv hsv_of_bgr k img !! i = Some q).
  { unfold adjusted_hsv, cvtColor_BGR2HSV.
    by rewrite adjust_fmap, !list_lookup_fmap, Hp. }
  assert (Hm : inRange (adjusted_hsv hsv_of_bgr k img)
                 (mkScalar (minH k) (minS k) (minV k))
                 (mkScalar (maxH k) (maxS k) (maxV k)) !! i = Some m).
  { unfold inRange. by rewrite list_lookup_fmap, Hq. }
  assert (H01 : m = 255 \/ m = 0).
  { subst m. unfold inRange_px. case_match; [by left | by right]. }
  split; [exact H01|]. split; [exact Hm|].
  unfold process. simpl.
  erewrite copyTo_lookup; [| unfold cvtColor_HSV2BGR; by rewrite list_lookup_fmap, Hq | exact Hm].
  destruct H01 as [-> | ->]; reflexivity.
Qed.

Lemma process_pointwise_witness :
  [mkVec4b 255 0 0 9; mkVec4b 0 0 0 9] !! 0%nat = Some (mkVec4b 255 0 0 9) /\
  shown_mask (process BGR2HSV_8U (fun p => p) dark_only
                [mkVec4b 255 0 0 9; mkVec4b 0 0 0 9]) !! 0%nat = Some 0.
Proof.
  assert (H : [mkVec4b 255 0 0 9; mkVec4b 0 0 0 9] !! 0%nat = Some (mkVec4b 255 0 0 9))
    by reflexivity.
  split; [exact H|].
  exact (proj1 (proj2 (process_pointwise BGR2HSV_8U (fun p => p) dark_only
                         [mkVec4b 255 0 0 9; mkVec4b 0 0 0 9] 0 _ H))).
Defined.

(** ** More on [main] *)

(** The loop when no key code is 0: every tick gets a full pass. *)
Lemma loop_run_all hsv_of_bgr bgr_of_hsv ts s :
  held s = false -> Forall (fun t => key t <> 0) ts ->
  loop hsv_of_bgr bgr_of_hsv ts s
  = (false, mkState false
              (trace s ++ concat (pass_entries hsv_of_bgr bgr_of_hsv <$> ts))).
Proof.
  intros Hs Hkeys. revert s Hs.
  induction Hkeys as [|t ts Ht _ IH]; intros [h tr] Hs; simpl in Hs; subst h.
  - cbn [loop fmap list_fmap concat trace]. by rewrite app_nil_r.
  - cbn [loop]. unfold mbind, M_bind, emit. cbn [held trace].
    apply Z.eqb_neq in Ht. rewrite Ht, iteration_run. cbn [held trace].
    rewrite IH by reflexivity. cbn [trace]. rewrite fmap_cons. cbn [concat].
    unfold pass_entries at 2. by rewrite <- !app_assoc.
Qed.

(** The loop when the first key code 0 comes after [ts1]. *)
Lemma loop_run_zero hsv_of_bgr bgr_of_hsv ts1 t0 ts2 s :
  held s = false -> Forall (fun t => key t <> 0) ts1 -> key t0 = 0 ->
  loop hsv_of_bgr bgr_of_hsv (ts1 ++ t0 :: ts2) s
  = (true, mkState false
             (trace s ++ concat (pass_entries hsv_of_bgr bgr_of_hsv <$> ts1)
                      ++ [(WaitKey 10, false)])).
Proof.
  intros Hs Hkeys H0. revert s Hs.
  induction Hkeys as [|t ts Ht _ IH]; intros [h tr] Hs; simpl in Hs; subst h.
  - cbn [app loop]. unfold mbind, M_bind, emit. cbn [held trace].
    rewrite H0. reflexivity.
  - cbn [app loop]. unfold mbind, M_bind, emit. cbn [held trace].
    apply Z.eqb_neq in Ht. rewrite Ht, iteration_run. cbn [held trace].
    rewrite IH by reflexivity. cbn [trace]. rewrite fmap_cons. cbn [concat].
    unfold pass_entries at 2. by rewrite <- !app_assoc.
Qed.

(** X10: the loop runs for as long as [cv::waitKey] returns something other
    than 0 (the -1 of "no key" included) and makes one full pass per turn;
    at the first 0 it stops after the call of [waitKey], and nothing that
    comes later is looked at.  The lock is free at the end either way. *)
Theorem loop_until_zero_key hsv_of_bgr bgr_of_hsv ts1 s :
  held s = false -> Forall (fun t => key t <> 0) ts1 ->
  loop hsv_of_bgr bgr_of_hsv ts1 s
  = (false, mkState false
              (trace s ++ concat (pass_entries hsv_of_bgr bgr_of_hsv <$> ts1))) /\
  forall t0 ts2, key t0 = 0 ->
    loop hsv_of_bgr bgr_of_hsv (ts1 ++ t0 :: ts2) s
    = (true, mkState false
               (trace s ++ concat (pass_entries hsv_of_bgr bgr_of_hsv <$> ts1)
                        ++ [(WaitKey 10, false)])).
Proof.
  intros Hs Hkeys. split; [by apply loop_run_all|].
  intros t0 ts2 H0. by apply loop_run_zero.
Qed.

Lemma loop_until_zero_key_witness :
  (held initial_state = false /\
   Forall (fun t => key t <> 0) [mkTick (-1) initial_controls [mkVec4b 0 0 0 0]]) /\
  (loop BGR2HSV_8U (fun p => p)
        [mkTick (-1) initial_controls [mkVec4b 0 0 0 0];
         mkTick 0 initial_controls [mkVec4b 1 1 1 1];
         mkTick 113 dark_only [mkVec4b 2 2 2 2]] initial_state).1 = true.
Proof.
  assert (H : held initial_state = false /\
              Forall (fun t => key t <> 0) [mkTick (-1) initial_controls [mkVec4b 0 0 0 0]])
    by (split; [reflexivity | repeat constructor; simpl; lia]).
  split; [exact H|].
  pose proof (proj2 (loop_until_zero_key BGR2HSV_8U (fun p => p) _ _ (proj1 H) (proj2 H))
                (mkTick 0 initial_controls [mkVec4b 1 1 1 1])
                [mkTick 113 dark_only [mkVec4b 2 2 2 2]] eq_refl) as Hrun.
  exact (f_equal fst Hrun).
Defined.

(** What [std::stoi] returns is an [int], and an [int] survives the trip
    through [uint32_t] and back into [CvSize]. *)
Lemma stoi_range s v : stoi s = Some v -> INT_MIN <= v <= INT_MAX.
Proof.
  unfold stoi. destruct (skip_spaces s) as [|c s'] eqn:E.
  - cbn. discriminate.
  - set (sgn := match String c s' with
                | String "-"%char r => (true, r)
                | String "+"%char r => (false, r)
                | _ => (false, String c s')
                end).
    destruct sgn as [negative rest].
    destruct (read_digits rest None) as [n|]; cbn; [|discriminate].
    case_match; [|discriminate]. intros [= <-]. lia.
Qed.

Lemma to_int32_to_uint32 x : INT_MIN <= x <= INT_MAX -> to_int32 (to_uint32 x) = x.
Proof.
  unfold to_int32, to_uint32, INT_MIN, INT_MAX. intros Hx.
  rewrite Zplus_mod_idemp_l.
  rewrite Z.mod_small by lia. lia.
Qed.

(** The run of [main] once the arguments parse and the attach succeeds:
    [cvCreateImageHeader] raises on a negative size, otherwise the windows
    are set up and the loop runs. *)
Lemma main_run_attached hsv_of_bgr bgr_of_hsv argv0 (args : gmap string string) env
    name width height w h size :
  args !! "name" = Some name -> args !! "width" = Some width ->
  args !! "height" = Some height ->
  stoi width = Some w -> stoi height = Some h ->
  attach env name = Some size ->
  main hsv_of_bgr bgr_of_hsv argv0 args env initial_state
  = (if (w <? 0) || (h <? 0)
     then (Terminated,
           mkState false [ (Attach name, false); (ClogAttached name size, false);
                           (CreateImageHeader w h, false) ])
     else
       let '(loop_left, s) :=
         loop hsv_of_bgr bgr_of_hsv (ticks env)
              (mkState false (setup_entries name size w h)) in
       if loop_left : bool
       then (Exited 0, mkState (held s) (trace s ++ [(ReleaseImageHeader, held s)]))
       else (Interrupted, s)).
Proof.
  intros Hn Hw Hh Hsw Hsh Hatt. unfold main, count, at_key.
  rewrite Hn, Hw, Hh. cbn [from_option id Z.eqb orb]. rewrite Hsw, Hsh.
  cbv beta iota zeta
      delta [mbind M_bind mret M_ret emit lock unlock create_controls held trace
             initial_state app].
  rewrite Hatt.
  cbv beta iota zeta
      delta [mbind M_bind mret M_ret emit lock unlock create_controls held trace
             initial_state app].
  rewrite (to_int32_to_uint32 w (stoi_range _ _ Hsw)),
          (to_int32_to_uint32 h (stoi_range _ _ Hsh)).
  destruct ((w <? 0) || (h <? 0)); [reflexivity|].
  unfold setup_entries.
  destruct (loop _ _ _ _) as [[] s]; reflexivity.
Qed.

Lemma lock_invariant_app s es :
  lock_invariant s -> Forall (fun en => entry_ok en = true) es ->
  lock_invariant (mkState false (trace s ++ es)).
Proof. intros [_ Htr] Hes. split; [reflexivity | by apply Forall_app]. Qed.

Lemma iteration_entries_ok hsv_of_bgr bgr_of_hsv t :
  Forall (fun en => entry_ok en = true) (iteration_entries hsv_of_bgr bgr_of_hsv t false).
Proof. unfold iteration_entries, processing_events. repeat constructor. Qed.

(** The loop keeps the lock invariant, whatever the key codes are. *)
Lemma loop_lock_invariant hsv_of_bgr bgr_of_hsv ts s :
  lock_invariant s -> lock_invariant (loop hsv_of_bgr bgr_of_hsv ts s).2.
Proof.
  revert s. induction ts as [|t ts IH]; intros s Hs; [exact Hs|].
  cbn [loop]. unfold mbind, M_bind, emit. destruct Hs as [Hh Htr].
  rewrite Hh. destruct (key t =? 0).
  - split; [reflexivity|]. apply Forall_app. split; [exact Htr | by repeat constructor].
  - rewrite iteration_run. apply IH. cbn [held trace]. rewrite <- app_assoc.
    apply (lock_invariant_app s); [by split|].
    apply Forall_app. split; [by repeat constructor | apply iteration_entries_ok].
Qed.

(** X11: in every run of [main], for all arguments, whether or not the
    attach succeeds and whatever the key codes and frames are, the lock is
    taken only when free and released only when held, the image data of the
    shared memory is bound and wrapped only under the lock, every other call
    is made with the lock free, and the lock is free when [main] ends. *)
Theorem main_lock_discipline hsv_of_bgr bgr_of_hsv argv0 (args : gmap string string) env :
  lock_invariant (main hsv_of_bgr bgr_of_hsv argv0 args env initial_state).2.
Proof.
  destruct (args !! "name") as [name|] eqn:Hn;
    [destruct (args !! "width") as [width|] eqn:Hw;
       [destruct (args !! "height") as [height|] eqn:Hh|]|].
  - destruct (stoi width) as [w|] eqn:Hsw; [destruct (stoi height) as [h|] eqn:Hsh|].
    + destruct (attach env name) as [size|] eqn:Hatt.
      * rewrite (main_run_attached _ _ _ _ _ _ _ _ _ _ _ Hn Hw Hh Hsw Hsh Hatt).
        destruct ((w <? 0) || (h <? 0));
          [split; [reflexivity | by repeat constructor]|].
        pose proof (loop_lock_invariant hsv_of_bgr bgr_of_hsv (ticks env)
                      (mkState false (setup_entries name size w h)))
          as Hloop.
        destruct (loop _ _ _ _) as [[] s]; cbn [snd] in *.
        -- destruct Hloop as [Hh' Htr]; [split; [reflexivity | by repeat constructor]|].
           rewrite Hh'. split; [reflexivity|].
           apply Forall_app. split; [exact Htr | by repeat constructor].
        -- apply Hloop. split; [reflexivity | by repeat constructor].
      * unfold main, count, at_key. rewrite Hn, Hw, Hh. cbn [from_option id Z.eqb orb].
        rewrite Hsw, Hsh. unfold mbind, M_bind, emit. cbn. rewrite Hatt.
        split; [reflexivity | by repeat constructor].
    + unfold main, count, at_key. rewrite Hn, Hw, Hh. cbn [from_option id Z.eqb orb].
      rewrite Hsw, Hsh. split; [reflexivity | constructor].
    + unfold main, count, at_key. rewrite Hn, Hw, Hh. cbn [from_option id Z.eqb orb].
      rewrite Hsw. split; [reflexivity | constructor].
  - unfold main, count. rewrite Hn, Hw, Hh. cbn [Z.eqb orb].
    split; [reflexivity | by repeat constructor].
  - unfold main, count. rewrite Hn, Hw. cbn [Z.eqb orb].
    split; [reflexivity | by repeat constructor].
  - unfold main, count. rewrite Hn. cbn [Z.eqb orb].
    split; [reflexivity | by repeat constructor].
Qed.

(** The four ways [main] can end, by what the command line holds. *)
Lemma main_outcome_cases hsv_of_bgr bgr_of_hsv argv0 (args : gmap string string) env :
  ((args !! "name" = None \/ args !! "width" = None \/ args !! "height" = None) /\
   (main hsv_of_bgr bgr_of_hsv argv0 args env initial_state).1 = Exited 1) \/
  ((is_Some (args !! "name") /\ is_Some (args !! "width") /\ is_Some (args !! "height")) /\
   ((main hsv_of_bgr bgr_of_hsv argv0 args env initial_state).1 = Exited 0 \/
    (main hsv_of_bgr bgr_of_hsv argv0 args env initial_state).1 = Terminated \/
    (main hsv_of_bgr bgr_of_hsv argv0 args env initial_state).1 = Interrupted)).
Proof.
  destruct (args !! "name") as [name|] eqn:Hn;
    [destruct (args !! "width") as [width|] eqn:Hw;
       [destruct (args !! "height") as [height|] eqn:Hh|]|].
  - right. split; [by eauto|].
    destruct (stoi width) as [w|] eqn:Hsw; [destruct (stoi height) as [h|] eqn:Hsh|].
    + destruct (attach env name) as [size|] eqn:Hatt.
      * rewrite (main_run_attached _ _ _ _ _ _ _ _ _ _ _ Hn Hw Hh Hsw Hsh Hatt).
        destruct ((w <? 0) || (h <? 0)); [by eauto|].
        destruct (loop _ _ _ _) as [[] s]; cbn [fst]; by eauto.
      * left. unfold main, count, at_key. rewrite Hn, Hw, Hh.
        cbn [from_option id Z.eqb orb]. rewrite Hsw, Hsh.
        unfold mbind, M_bind, emit. cbn. by rewrite Hatt.
    + right. left. unfold main, count, at_key. rewrite Hn, Hw, Hh.
      cbn [from_option id Z.eqb orb]. by rewrite Hsw, Hsh.
    + right. left. unfold main, count, at_key. rewrite Hn, Hw, Hh.
      cbn [from_option id Z.eqb orb]. by rewrite Hsw.
  - left. split; [by eauto|]. unfold main, count. rewrite Hn, Hw, Hh. reflexivity.
  - left. split; [by eauto|]. unfold main, count. rewrite Hn, Hw. reflexivity.
  - left. split; [by eauto|]. unfold main, count. rewrite Hn. reflexivity.
Qed.

Lemma run_main_fst hsv_of_bgr bgr_of_hsv argv0 (args : gmap string string) env :
  (run_main hsv_of_bgr bgr_of_hsv argv0 args env).1
  = (main hsv_of_bgr bgr_of_hsv argv0 args env initial_state).1.
Proof. unfold run_main. by destruct (main _ _ _ _ _ _). Qed.

(** X12: [main] returns 1 exactly when [name], [width] or [height] is
    missing from the command line, and it never returns anything but 0
    or 1. *)
Theorem main_exit_status hsv_of_bgr bgr_of_hsv argv0 (args : gmap string string) env :
  ((run_main hsv_of_bgr bgr_of_hsv argv0 args env).1 = Exited 1 <->
   args !! "name" = None \/ args !! "width" = None \/ args !! "height" = None) /\
  (forall c, (run_main hsv_of_bgr bgr_of_hsv argv0 args env).1 = Exited c ->
             c = 0 \/ c = 1).
Proof.
  rewrite run_main_fst.
  destruct (main_outcome_cases hsv_of_bgr bgr_of_hsv argv0 args env)
    as [[Hmiss ->] | [(Hn & Hw & Hh) Hout]].
  - split; [by split | intros c [= <-]; by right].
  - assert (Hpresent : ~ (args !! "name" = None \/ args !! "width" = None \/
                          args !! "height" = None)).
    { intros [E | [E | E]]; rewrite E in *; by eapply is_Some_None. }
    destruct Hout as [-> | [-> | ->]].
    + split; [split; [done | by intros ?] | intros c [= <-]; by left].
    + split; [split; [done | by intros ?] | done].
    + split; [split; [done | by intros ?] | done].
Qed.

(** X13: when the three arguments are present but [width] or [height] does
    not start with a number that fits an [int], [std::stoi] throws and
    nothing catches it: [main] ends without a usage message, without an
    attach and without a return value. *)
Theorem main_bad_dimension hsv_of_bgr bgr_of_hsv argv0 (args : gmap string string) env
    name width height :
  args !! "name" = Some name -> args !! "width" = Some width ->
  args !! "height" = Some height ->
  stoi width = None \/ stoi height = None ->
  run_main hsv_of_bgr bgr_of_hsv argv0 args env = (Terminated, []).
Proof.
  intros Hn Hw Hh Hbad. unfold run_main, main, count, at_key.
  rewrite Hn, Hw, Hh. cbn [from_option id Z.eqb orb].
  destruct (stoi width) as [w|]; [|reflexivity].
  destruct Hbad as [[=] | ->]. reflexivity.
Qed.

Lemma main_bad_dimension_witness :
  (({["name" := "img.argb"; "width" := "640"; "height" := "x480"]} : gmap string string)
     !! "height" = Some "x480" /\ stoi "x480" = None) /\
  run_main BGR2HSV_8U (fun p => p) "inspector"
           {["name" := "img.argb"; "width" := "640"; "height" := "x480"]}
           (mkEnv (fun _ => Some 4) [mkTick (-1) initial_controls [mkVec4b 0 0 0 0]])
  = (Terminated, []).
Proof.
  assert (H : ({["name" := "img.argb"; "width" := "640"; "height" := "x480"]}
                 : gmap string string) !! "height" = Some "x480" /\ stoi "x480" = None)
    by (split; vm_compute; reflexivity).
  split; [exact H|].
  refine (main_bad_dimension BGR2HSV_8U (fun p => p) "inspector" _
            (mkEnv (fun _ => Some 4) [mkTick (-1) initial_controls [mkVec4b 0 0 0 0]])
            "img.argb" "640" "x480" _ _ (proj1 H) (or_intror (proj2 H)));
    vm_compute; reflexivity.
Defined.

(** The images among the calls of full passes. *)
Lemma images_shown_passes hsv_of_bgr bgr_of_hsv ts :
  images_shown (fst <$> concat (pass_entries hsv_of_bgr bgr_of_hsv <$> ts))
  = concat (pass_images hsv_of_bgr bgr_of_hsv <$> ts).
Proof.
  unfold images_shown. induction ts as [|t ts IH]; [reflexivity|].
  rewrite !fmap_cons. cbn [concat]. rewrite fmap_app, omap_app, IH. reflexivity.
Qed.

Lemma images_shown_app tr1 tr2 :
  images_shown (tr1 ++ tr2) = images_shown tr1 ++ images_shown tr2.
Proof. apply omap_app. Qed.

(** X14: a complete run.  When the arguments parse to positive dimensions,
    the attach succeeds, every frame has width times height pixels and the
    first key code 0 comes after the ticks [ts1], [main] returns 0, its last
    call releases the image header, the header was created with the parsed
    width and height, and what [main] has shown is, pass by pass and in
    this order, the mask and the masked image of that pass's frame under
    that pass's trackbar positions; frames that come after the key code 0
    are never shown. *)
Theorem main_complete_run hsv_of_bgr bgr_of_hsv argv0 (args : gmap string string) env
    name width height w h size ts1 t0 ts2 :
  args !! "name" = Some name -> args !! "width" = Some width ->
  args !! "height" = Some height ->
  stoi width = Some w -> stoi height = Some h ->
  0 < w -> 0 < h ->
  attach env name = Some size ->
  ticks env = ts1 ++ t0 :: ts2 ->
  Forall (fun t => Z.of_nat (length (pixels t)) = w * h) ts1 ->
  Forall (fun t => key t <> 0) ts1 -> key t0 = 0 ->
  (run_main hsv_of_bgr bgr_of_hsv argv0 args env).1 = Exited 0 /\
  last (run_main hsv_of_bgr bgr_of_hsv argv0 args env).2 = Some ReleaseImageHeader /\
  CreateImageHeader w h ∈ (run_main hsv_of_bgr bgr_of_hsv argv0 args env).2 /\
  images_shown (run_main hsv_of_bgr bgr_of_hsv argv0 args env).2
  = concat (pass_images hsv_of_bgr bgr_of_hsv <$> ts1).
Proof.
  intros Hn Hw Hh Hsw Hsh Hwpos Hhpos Hatt Hticks _ Hkeys H0. unfold run_main.
  rewrite (main_run_attached _ _ _ _ _ _ _ _ _ _ _ Hn Hw Hh Hsw Hsh Hatt), Hticks.
  replace ((w <? 0) || (h <? 0)) with false by lia.
  rewrite (loop_run_zero hsv_of_bgr bgr_of_hsv ts1 t0 ts2
             (mkState false (setup_entries name size w h))
             eq_refl Hkeys H0).
  cbn [held trace fst snd].
  split; [reflexivity|].
  rewrite !fmap_app. split; [|split].
  - rewrite !app_assoc. apply last_snoc.
  - rewrite !elem_of_app. left. left. unfold setup_entries.
    rewrite !fmap_cons. cbn [fst]. rewrite !elem_of_cons. by eauto.
  - rewrite !images_shown_app, images_shown_passes.
    change (images_shown (fst <$> setup_entries name size w h)) with (@nil shown).
    change (images_shown (fst <$> [(WaitKey 10, false)])) with (@nil shown).
    change (images_shown (fst <$> [(ReleaseImageHeader, false)])) with (@nil shown).
    cbn [app]. by rewrite !app_nil_r.
Qed.

Lemma main_complete_run_witness :
  (stoi "2" = Some 2 /\ stoi "1" = Some 1 /\ 0 < 2 /\ 0 < 1 /\
   Forall (fun t => Z.of_nat (length (pixels t)) = 2 * 1)
          [mkTick (-1) dark_only [mkVec4b 255 0 0 0; mkVec4b 0 0 0 0]] /\
   Forall (fun t => key t <> 0)
          [mkTick (-1) dark_only [mkVec4b 255 0 0 0; mkVec4b 0 0 0 0]]) /\
  images_shown
    (run_main BGR2HSV_8U (fun p => p) "inspector"
       {["name" := "img.argb"; "width" := "2"; "height" := "1"]}
       (mkEnv (fun _ => Some 8)
          [mkTick (-1) dark_only [mkVec4b 255 0 0 0; mkVec4b 0 0 0 0];
           mkTick 0 initial_controls [mkVec4b 0 0 0 0; mkVec4b 0 0 0 0]])).2
  = concat (pass_images BGR2HSV_8U (fun p => p)
              <$> [mkTick (-1) dark_only [mkVec4b 255 0 0 0; mkVec4b 0 0 0 0]]).
Proof.
  assert (H : stoi "2" = Some 2 /\ stoi "1" = Some 1 /\ 0 < 2 /\ 0 < 1 /\
              Forall (fun t => Z.of_nat (length (pixels t)) = 2 * 1)
                     [mkTick (-1) dark_only [mkVec4b 255 0 0 0; mkVec4b 0 0 0 0]] /\
              Forall (fun t => key t <> 0)
                     [mkTick (-1) dark_only [mkVec4b 255 0 0 0; mkVec4b 0 0 0 0]])
    by (repeat split; try reflexivity; try lia; repeat constructor; simpl; lia).
  split; [exact H|].
  destruct H as (Hsw & Hsh & Hwpos & Hhpos & Hpix & Hkeys).
  refine (proj2 (proj2 (proj2 (main_complete_run BGR2HSV_8U (fun p => p) "inspector"
            {["name" := "img.argb"; "width" := "2"; "height" := "1"]}
            (mkEnv (fun _ => Some 8)
               [mkTick (-1) dark_only [mkVec4b 255 0 0 0; mkVec4b 0 0 0 0];
                mkTick 0 initial_controls [mkVec4b 0 0 0 0; mkVec4b 0 0 0 0]])
            "img.argb" "2" "1" 2 1 8
            [mkTick (-1) dark_only [mkVec4b 255 0 0 0; mkVec4b 0 0 0 0]]
            (mkTick 0 initial_controls [mkVec4b 0 0 0 0; mkVec4b 0 0 0 0]) []
            _ _ _ Hsw Hsh Hwpos Hhpos eq_refl eq_refl Hpix Hkeys eq_refl))));
    vm_compute; reflexivity.
Defined.

(** X17: a negative width or height ends [main] right after the attach.
    The [int] that [std::stoi] returned reaches [CvSize] unchanged through
    the [uint32_t], [cvCreateImageHeader] raises on it, and nothing catches
    the exception: no window is created, the loop is never entered and no
    status is returned. *)
Theorem main_negative_dimension hsv_of_bgr bgr_of_hsv argv0 (args : gmap string string) env
    name width height w h size :
  args !! "name" = Some name -> args !! "width" = Some width ->
  args !! "height" = Some height ->
  stoi width = Some w -> stoi height = Some h ->
  attach env name = Some size ->
  w < 0 \/ h < 0 ->
  run_main hsv_of_bgr bgr_of_hsv argv0 args env
  = (Terminated, [Attach name; ClogAttached name size; CreateImageHeader w h]).
Proof.
  intros Hn Hw Hh Hsw Hsh Hatt Hneg. unfold run_main.
  rewrite (main_run_attached _ _ _ _ _ _ _ _ _ _ _ Hn Hw Hh Hsw Hsh Hatt).
  replace ((w <? 0) || (h <? 0)) with true by lia. reflexivity.
Qed.

Lemma main_negative_dimension_witness :
  (stoi "-5" = Some (-5) /\ stoi "0" = Some 0 /\ (-5 < 0 \/ 0 < 0)) /\
  run_main BGR2HSV_8U (fun p => p) "inspector"
           {["name" := "img.argb"; "width" := "-5"; "height" := "0"]}
           (mkEnv (fun _ => Some 4) [mkTick (-1) initial_controls []])
  = (Terminated, [Attach "img.argb"; ClogAttached "img.argb" 4; CreateImageHeader (-5) 0]).
Proof.
  assert (H : stoi "-5" = Some (-5) /\ stoi "0" = Some 0 /\ (-5 < 0 \/ 0 < 0))
    by (split; [reflexivity | split; [reflexivity | left; lia]]).
  split; [exact H|].
  destruct H as (Hsw & Hsh & Hneg).
  refine (main_negative_dimension BGR2HSV_8U (fun p => p) "inspector"
            {["name" := "img.argb"; "width" := "-5"; "height" := "0"]}
            (mkEnv (fun _ => Some 4) [mkTick (-1) initial_controls []])
            "img.argb" "-5" "0" (-5) 0 4 _ _ _ Hsw Hsh eq_refl Hneg);
    vm_compute; reflexivity.
Defined.

(** ** More on the masked copy *)

Lemma copyTo_masked_nonzero src dst mask :
  length dst = length src -> length mask = length src ->
  Forall (fun m => m <> 0) mask -> copyTo_masked src dst mask = src.
Proof.
  intros Hd Hm Hnz. revert src dst Hd Hm.
  induction Hnz as [|m mask Hne _ IH]; intros [|p src] [|d dst]; try done.
  intros [= Hd] [= Hm]. cbn [copyTo_masked].
  apply Z.eqb_neq in Hne. rewrite Hne. f_equal. by apply IH.
Qed.

Lemma copyTo_masked_zero src dst n :
  length dst = length src -> n = length src ->
  copyTo_masked src dst (replicate n 0) = dst.
Proof.
  intros Hd ->. revert dst Hd.
  induction src as [|p src IH]; intros [|d dst]; try done.
  intros [= Hd]. cbn [length replicate copyTo_masked]. f_equal. by apply IH.
Qed.

(** X15: the two extremes of the masked copy into the fresh image: a mask
    without a zero gives back the source (any non-zero mask value selects,
    not only 255), and a mask of zeros gives a black image of the size of
    the source. *)
Theorem copyTo_extremes (src : list Vec3b) (mask : plane) :
  length mask = length src ->
  (Forall (fun m => m <> 0) mask -> copyTo src mask = src) /\
  (mask = replicate (length src) 0 ->
   copyTo src mask = replicate (length src) zero3).
Proof.
  intros Hlen. unfold copyTo. split.
  - intros Hnz. apply copyTo_masked_nonzero; [apply length_replicate | done | done].
  - intros ->. apply copyTo_masked_zero; [apply length_replicate | reflexivity].
Qed.

Lemma copyTo_extremes_witness :
  (length [255; 1] = length [mkVec3b 1 2 3; mkVec3b 4 5 6] /\
   Forall (fun m => m <> 0) [255; 1]) /\
  copyTo [mkVec3b 1 2 3; mkVec3b 4 5 6] [255; 1] = [mkVec3b 1 2 3; mkVec3b 4 5 6].
Proof.
  assert (H : length [255; 1] = length [mkVec3b 1 2 3; mkVec3b 4 5 6] /\
              Forall (fun m => m <> 0) [255; 1])
    by (split; [reflexivity | repeat constructor; lia]).
  split; [exact H|].
  exact (proj1 (copyTo_extremes [mkVec3b 1 2 3; mkVec3b 4 5 6] [255; 1] (proj1 H))
           (proj2 H)).
Defined.

(** X16: with the bounds as the trackbars open and any in-domain offsets,
    every pixel of every frame is selected, so the second window shows the
    whole adjusted frame converted back. *)
Theorem full_ranges_show_everything hsv_of_bgr bgr_of_hsv k (img : list Vec4b) :
  (forall b g r, px_8U (hsv_of_bgr b g r)) ->
  controls_in_domain k ->
  minH k = 0 -> minS k = 0 -> minV k = 0 ->
  maxH k = 179 -> maxS k = 255 -> maxV k = 255 ->
  shown_mask (process hsv_of_bgr bgr_of_hsv k img) = replicate (length img) 255 /\
  shown_filtered (process hsv_of_bgr bgr_of_hsv k img)
  = cvtColor_HSV2BGR bgr_of_hsv (adjusted_hsv hsv_of_bgr k img).
Proof.
  intros Hker Hk L0 L1 L2 U0 U1 U2.
  assert (Hmask : frame_mask hsv_of_bgr k img = replicate (length img) 255).
  { unfold frame_mask, adjusted_hsv, inRange. rewrite L0, L1, L2, U0, U1, U2.
    rewrite adjust_fmap. unfold cvtColor_BGR2HSV. rewrite <- !list_fmap_compose.
    apply const_fmap. intros _ p _. simpl. apply inRange_px_255.
    destruct (Hker (byte0 p) (byte1 p) (byte2 p)) as (H0 & H1 & H2).
    pose proof (adjust_px_in_domain k _ Hk H0 H1 H2) as Hdom.
    unfold hsv_px_in_domain, in_domain, within_bounds in *. simpl in *. lia. }
  split; [exact Hmask|].
  unfold process. cbn [shown_filtered].
  fold (frame_mask hsv_of_bgr k img). rewrite Hmask.
  unfold copyTo. apply copyTo_masked_nonzero.
  - apply length_replicate.
  - unfold cvtColor_HSV2BGR, adjusted_hsv, cvtColor_BGR2HSV.
    by rewrite length_replicate, length_fmap, length_adjust, length_fmap.
  - apply Forall_replicate. lia.
Qed.

Lemma full_ranges_show_everything_witness :
  ((forall b g r : Z, px_8U ((fun _ _ _ => mkVec3b 200 20 30) b g r)) /\
   controls_in_domain (mkControls 0 179 0 255 0 255 5 6 7 8 9 10)) /\
  shown_mask (process (fun _ _ _ => mkVec3b 200 20 30) (fun p => p)
                (mkControls 0 179 0 255 0 255 5 6 7 8 9 10) [mkVec4b 1 2 3 4])
  = [255].
Proof.
  assert (H : (forall b g r : Z, px_8U ((fun _ _ _ => mkVec3b 200 20 30) b g r)) /\
              controls_in_domain (mkControls 0 179 0 255 0 255 5 6 7 8 9 10)).
  { split.
    - intros _ _ _. unfold px_8U, fits_8U, UCHAR_MAX. simpl. lia.
    - unfold controls_in_domain, in_domain. simpl. lia. }
  split; [exact H|].
  exact (proj1 (full_ranges_show_everything (fun _ _ _ => mkVec3b 200 20 30) (fun p => p)
                  (mkControls 0 179 0 255 0 255 5 6 7 8 9 10) [mkVec4b 1 2 3 4]
                  (proj1 H) (proj2 H) eq_refl eq_refl eq_refl eq_refl eq_refl eq_refl)).
Defined.
